(** * Qwen device authorization flow and action validation

    A shallow embedding of the Qwen OAuth device-flow code:
    - [src/ipc/handlers/qwen_oauth_handlers.ts]: the proof-key helpers and the
      two IPC handlers ("qwen-oauth:device-code", "qwen-oauth:token");
    - [src/components/QwenOAuthDialog.tsx]: the dialog that drives the
      polling loop, in its two revisions (the one with expiry tracking and the
      one without).

    JavaScript numbers are embedded as [Z] (seconds, millisecond timestamps and
    HTTP status codes are integers far below 2^53), strings as [string] whose
    characters are code units below 256, JSON objects as [gmap string _]. *)

From Stdlib Require Import ZArith Lia Ascii String.
From stdpp Require Import base option list gmap strings pretty.

#[local] Set Warnings "-register-all".
#[local] Open Scope Z_scope.
#[local] Open Scope string_scope.

(** ** JavaScript values as they cross the IPC and HTTP boundaries *)

Module Js.

(** The result of [response.json()], and any value a promise can reject
    with. *)
Inductive JValue : Type :=
  | JUndefined
  | JNull
  | JBool (b : bool)
  | JNum (n : Z)
  | JStr (s : string)
  | JArr (l : list JValue)
  | JObj (m : gmap string JValue).

(** An [Error] instance: its [message] and, for Node system errors, its
    [code]. *)
Record JsError : Type := mkError {
  message : string;
  code : option string
}.

(** What a [throw] or a rejected promise carries: an [Error] instance or a
    plain value (the token handler throws the parsed JSON body itself). *)
Inductive Thrown : Type :=
  | ThrownError (e : JsError)
  | ThrownValue (v : JValue).

Inductive Completion (A : Type) : Type :=
  | Return (a : A)
  | Throw (t : Thrown).
Arguments Return {A} a.
Arguments Throw {A} t.

Definition new_Error (msg : string) : Thrown :=
  ThrownError {| message := msg; code := None |}.

(** [v.k]: property read on a value that is neither null nor undefined;
    primitives and arrays have none of the properties read here. *)
Definition get (v : JValue) (k : string) : JValue :=
  match v with
  | JObj m => default JUndefined (m !! k)
  | _ => JUndefined
  end.

(** [e?.k] on a caught value. *)
Definition prop (t : Thrown) (k : string) : JValue :=
  match t with
  | ThrownError e =>
      if String.eqb k "message" then JStr (message e)
      else if String.eqb k "code" then from_option JStr JUndefined (code e)
      else JUndefined
  | ThrownValue v => get v k
  end.

(** ToBoolean. *)
Definition truthy (v : JValue) : bool :=
  match v with
  | JUndefined | JNull => false
  | JBool b => b
  | JNum n => negb (n =? 0)%Z
  | JStr s => negb (String.eqb s "")
  | JArr _ | JObj _ => true
  end.

(** [a || b]. *)
Definition or_else (a b : JValue) : JValue := if truthy a then a else b.

(** [v === 'lit']. *)
Definition strict_eq_str (v : JValue) (lit : string) : bool :=
  match v with
  | JStr s => String.eqb s lit
  | _ => false
  end.

(** [s.includes(needle)] on strings. *)
Fixpoint includes (needle s : string) : bool :=
  String.prefix needle s
  || match s with
     | EmptyString => false
     | String _ s' => includes needle s'
     end.

(** [v?.includes('lit')]: falsy ([Some false]) when [v] is null or undefined,
    the boolean answer for strings and arrays, and [None] when the call
    raises a TypeError ([includes] is not a function on the other values). *)
Definition opt_includes (v : JValue) (lit : string) : option bool :=
  match v with
  | JUndefined | JNull => Some false
  | JStr s => Some (includes lit s)
  | JArr l => Some (existsb (fun x => strict_eq_str x lit) l)
  | JBool _ | JNum _ | JObj _ => None
  end.

(** [{...v}]: the own enumerable properties copied by object spread. *)
Definition spread (v : JValue) : gmap string JValue :=
  match v with
  | JObj m => m
  | JArr l => list_to_map (imap (fun i x => (pretty i, x)) l)
  | JStr s =>
      list_to_map
        (imap (fun i c => (pretty i, JStr (String c EmptyString)))
              (list_ascii_of_string s))
  | JUndefined | JNull | JBool _ | JNum _ => ∅
  end.

(** [s] has [k] somewhere in it: what [s.includes(k)] tests. *)
Definition contains (k s : string) : Prop :=
  ∃ pre post, s = pre ++ k ++ post.

End Js.

(** ** [src/ipc/handlers/qwen_oauth_handlers.ts]

    The two handlers are the functions the file registers with [handle];
    [createLoggedHandler] and the IPC client that calls them are not among
    the sources and are not modelled, nor is logging. *)

Module QwenOAuthHandlers.
Import Js.

Definition QWEN_DEVICE_CODE_URL : string :=
  "https://chat.qwen.ai/api/v1/oauth2/device/code".
Definition QWEN_TOKEN_URL : string :=
  "https://chat.qwen.ai/api/v1/oauth2/token".
Definition QWEN_CLIENT_ID : string := "f0304373b74a44d2b584a3fb70ca9e56".
Definition QWEN_SCOPE : string := "openid profile email model.completion".

(** *** Base64 ([btoa]) and the three [replace] calls *)

(** A group of six bits, most significant first. *)
Definition sextet : Type := (bool * bool * bool * bool * bool * bool)%type.

Definition sextet_index (x : sextet) : nat :=
  let '(b5, b4, b3, b2, b1, b0) := x in
  (Nat.b2n b5 * 32 + Nat.b2n b4 * 16 + Nat.b2n b3 * 8
   + Nat.b2n b2 * 4 + Nat.b2n b1 * 2 + Nat.b2n b0)%nat.

Definition base64_alphabet : string :=
  "ABCDEFGHIJKLMNOPQRSTUVWXYZabcdefghijklmnopqrstuvwxyz0123456789+/".

Definition base64url_alphabet : string :=
  "ABCDEFGHIJKLMNOPQRSTUVWXYZabcdefghijklmnopqrstuvwxyz0123456789-_".

Definition digit (alphabet : string) (x : sextet) : ascii :=
  default "="%char (String.get (sextet_index x) alphabet).

(** The sextets of one, two and three input bytes ([Ascii] lists the bits of
    a byte least significant first). *)
Definition sextets1 (a : ascii) : list sextet :=
  let '(Ascii a0 a1 a2 a3 a4 a5 a6 a7) := a in
  [ (a7, a6, a5, a4, a3, a2); (a1, a0, false, false, false, false) ].

Definition sextets2 (a b : ascii) : list sextet :=
  let '(Ascii a0 a1 a2 a3 a4 a5 a6 a7) := a in
  let '(Ascii b0 b1 b2 b3 b4 b5 b6 b7) := b in
  [ (a7, a6, a5, a4, a3, a2); (a1, a0, b7, b6, b5, b4);
    (b3, b2, b1, b0, false, false) ].

Definition sextets3 (a b c : ascii) : list sextet :=
  let '(Ascii a0 a1 a2 a3 a4 a5 a6 a7) := a in
  let '(Ascii b0 b1 b2 b3 b4 b5 b6 b7) := b in
  let '(Ascii c0 c1 c2 c3 c4 c5 c6 c7) := c in
  [ (a7, a6, a5, a4, a3, a2); (a1, a0, b7, b6, b5, b4);
    (b3, b2, b1, b0, c7, c6); (c5, c4, c3, c2, c1, c0) ].

(** [btoa]: standard alphabet, padded with '=' to a multiple of four. *)
Fixpoint btoa_list (bytes : list ascii) : list ascii :=
  match bytes with
  | [] => []
  | [a] => (digit base64_alphabet <$> sextets1 a) ++ ["="; "="]%char
  | [a; b] => (digit base64_alphabet <$> sextets2 a b) ++ ["="]%char
  | a :: b :: c :: rest =>
      (digit base64_alphabet <$> sextets3 a b c) ++ btoa_list rest
  end.

Definition btoa (s : string) : string :=
  string_of_list_ascii (btoa_list (list_ascii_of_string s)).

(** [s.replace(/c/g, d)] for a one-character pattern. *)
Definition replace_char (c d : ascii) (s : string) : string :=
  string_of_list_ascii
    ((fun x => if Ascii.eqb x c then d else x) <$> list_ascii_of_string s).

(** [s.replace(/c/g, '')]. *)
Definition remove_char (c : ascii) (s : string) : string :=
  string_of_list_ascii
    (List.filter (fun x => negb (Ascii.eqb x c)) (list_ascii_of_string s)).

(** [btoa(String.fromCharCode(...bytes)).replace(/\+/g, '-')
      .replace(/\//g, '_').replace(/=/g, '')], the expression shared by
    [generateCodeVerifier] and [generateCodeChallenge]. *)
Definition btoa_urlsafe (bytes : list ascii) : string :=
  remove_char "=" (replace_char "/" "_" (replace_char "+" "-"
    (btoa (string_of_list_ascii bytes)))).

(** What the three replacements do to one character of the [btoa] output:
    '+' and '/' are renamed, '=' is the one character dropped. *)
Definition urlsafe_char (x : ascii) : ascii :=
  let y := if Ascii.eqb x "+" then "-"%char else x in
  if Ascii.eqb y "/" then "_"%char else y.

Definition keep (x : ascii) : bool := negb (Ascii.eqb x "=").

(** Base64url without padding, written directly from its definition
    (RFC 4648, section 5): the reference [btoa_urlsafe] is compared with. *)
Fixpoint base64url_spec (bytes : list ascii) : list ascii :=
  match bytes with
  | [] => []
  | [a] => digit base64url_alphabet <$> sextets1 a
  | [a; b] => digit base64url_alphabet <$> sextets2 a b
  | a :: b :: c :: rest =>
      (digit base64url_alphabet <$> sextets3 a b c) ++ base64url_spec rest
  end.

(** [new TextEncoder().encode(s)]: UTF-8, for code units below 256. *)
Definition utf8_encode_char (c : ascii) : list ascii :=
  let '(Ascii c0 c1 c2 c3 c4 c5 c6 c7) := c in
  if c7
  then [ Ascii c6 c7 false false false false true true;
         Ascii c0 c1 c2 c3 c4 c5 false true ]
  else [ c ].

Definition utf8_encode (s : string) : list ascii :=
  list_ascii_of_string s ≫= utf8_encode_char.

(** *** Requests, responses and the two handlers *)

Record Request : Type := mkRequest {
  req_url : string;
  req_method : string;
  req_headers : list (string * string);
  (** the [URLSearchParams] entries, in insertion order *)
  req_body : list (string * string)
}.

Record Response : Type := mkResponse {
  status : Z;
  statusText : string;
  (** the outcome of [response.json()]: a SyntaxError when the body is not
      JSON *)
  json : JsError + JValue
}.

(** [response.ok]. *)
Definition ok (r : Response) : bool :=
  (200 <=? status r)%Z && (status r <=? 299)%Z.

(** The outcome of [fetch]: it rejects with an [Error] on network failure. *)
Inductive FetchOutcome : Type :=
  | FetchFailed (e : JsError)
  | Fetched (r : Response).

Definition form_headers : list (string * string) :=
  [ ("Content-Type", "application/x-www-form-urlencoded") ].

Section Pkce.

(** [crypto.subtle.digest('SHA-256', _)], provided by the platform. *)
Variable sha256 : list ascii → list ascii.

(** [generateCodeVerifier]; [array] is the [Uint8Array(32)] after
    [crypto.getRandomValues] has filled it. *)
Definition generateCodeVerifier (array : list ascii) : string :=
  btoa_urlsafe array.

Definition generateCodeChallenge (verifier : string) : string :=
  btoa_urlsafe (sha256 (utf8_encode verifier)).

Definition device_code_request (codeChallenge : string) : Request :=
  {| req_url := QWEN_DEVICE_CODE_URL;
     req_method := "POST";
     req_headers := form_headers;
     req_body := [ ("client_id", QWEN_CLIENT_ID);
                   ("scope", QWEN_SCOPE);
                   ("code_challenge", codeChallenge);
                   ("code_challenge_method", "S256") ] |}.

(** The body of the [try] block of the "qwen-oauth:device-code" handler;
    everything it can throw is an [Error] instance. *)
Definition device_code_try (array : list ascii)
    (fetch : Request → FetchOutcome) : JsError + JValue :=
  let codeVerifier := generateCodeVerifier array in
  let codeChallenge := generateCodeChallenge codeVerifier in
  match fetch (device_code_request codeChallenge) with
  | FetchFailed e => inl e
  | Fetched response =>
      if negb (ok response)
      then inl {| message := "Device code request failed: "
                             ++ pretty (status response) ++ " "
                             ++ statusText response;
                  code := None |}
      else
        match json response with
        | inl e => inl e
        | inr data =>
            inr (JObj (<["code_verifier" := JStr codeVerifier]> (spread data)))
        end
  end.

(** The "qwen-oauth:device-code" handler ([logger.error] is not modelled). *)
Definition device_code_handler (array : list ascii)
    (fetch : Request → FetchOutcome) : Completion JValue :=
  match device_code_try array fetch with
  | inr result => Return result
  | inl error =>
      Throw (new_Error ("Failed to get Qwen device code: " ++ message error))
  end.

End Pkce.

Record TokenParams : Type := mkTokenParams {
  deviceCode : string;
  codeVerifier : string
}.

Definition token_request (params : TokenParams) : Request :=
  {| req_url := QWEN_TOKEN_URL;
     req_method := "POST";
     req_headers := form_headers;
     req_body := [ ("grant_type",
                    "urn:ietf:params:oauth:grant-type:device_code");
                   ("client_id", QWEN_CLIENT_ID);
                   ("device_code", deviceCode params);
                   ("code_verifier", codeVerifier params) ] |}.

(** The "qwen-oauth:token" handler: its [catch] logs and rethrows the caught
    value unchanged. *)
Definition token_handler (params : TokenParams)
    (fetch : Request → FetchOutcome) : Completion JValue :=
  match fetch (token_request params) with
  | FetchFailed e => Throw (ThrownError e)
  | Fetched response =>
      if negb (ok response)
      then
        if (status response =? 400)%Z
        then
          match json response with
          | inl e => Throw (ThrownError e)
          | inr errorData => Throw (ThrownValue errorData)
          end
        else Throw (new_Error ("Token request failed: "
                               ++ pretty (status response) ++ " "
                               ++ statusText response))
      else
        match json response with
        | inl e => Throw (ThrownError e)
        | inr data => Return data
        end
  end.


End QwenOAuthHandlers.

(** ** [src/components/QwenOAuthDialog.tsx] *)

(** What the two revisions of the dialog share. *)
Module DialogTypes.
Import Js.

(** The [step] state of the dialog. *)
Inductive Step : Type :=
  | step_device_code
  | step_polling
  | step_success
  | step_error.

(** [QwenTokenResponse], what [qwenOAuthToken] resolves with. *)
Record QwenTokenResponse : Type := mkTokenResponse {
  access_token : string;
  refresh_token : option string;
  token_type : string;
  expires_in : Z;
  scope : string;
  resource_url : option string
}.

(** What [qwenOAuthDeviceCode] resolves with, as [startOAuthFlow] reads it:
    the declared fields of [QwenDeviceCodeResponse] and [code_verifier];
    [interval] may be missing. *)
Record DeviceCodeResult : Type := mkDeviceCodeResult {
  device_code : string;
  user_code : string;
  verification_uri_complete : string;
  dc_expires_in : Z;
  interval : option Z;
  code_verifier : string
}.





(** The arguments of one [pollForToken] call. *)
Record PollArgs : Type := mkPollArgs {
  pa_deviceCode : string;
  pa_codeVerifier : string;
  pa_interval : Z
}.

(** [{ deviceCode, codeVerifier }], the argument of [qwenOAuthToken]. *)
Definition params_of (args : PollArgs) : QwenOAuthHandlers.TokenParams :=
  {| QwenOAuthHandlers.deviceCode := pa_deviceCode args;
     QwenOAuthHandlers.codeVerifier := pa_codeVerifier args |}.

(** [result.interval || 5]. *)
Definition interval_or_5 (i : option Z) : Z :=
  match i with
  | Some n => if (n =? 0)%Z then 5 else n
  | None => 5
  end.

(** [s || d] on an optional string. *)
Definition str_or (s : option string) (d : string) : string :=
  match s with
  | Some x => if String.eqb x "" then d else x
  | None => d
  end.

Definition DASHSCOPE_URL : string := "https://dashscope.aliyuncs.com/api/v1/".

Definition success_toast : string :=
  "Qwen authentication successful! Pro features are now enabled.".

(** The token call was rejected with a value whose [error] property is the
    OAuth error code [code]. *)
Definition answers (code : string) (r : Completion QwenTokenResponse) : Prop :=
  ∃ pollError, r = Throw pollError ∧ prop pollError "error" = JStr code.

(** The test [pollError?.error === code] on the outcome of a token call. *)
Definition answers_b (code : string) (r : Completion QwenTokenResponse)
    : bool :=
  match r with
  | Return _ => false
  | Throw pollError => strict_eq_str (prop pollError "error") code
  end.

(** [err instanceof Error ? err.message : 'Failed to start authentication']. *)
Definition start_error_message (err : Thrown) : string :=
  match err with
  | ThrownError e => message e
  | ThrownValue _ => "Failed to start authentication"
  end.

End DialogTypes.

(** *** The revision that tracks the device code's expiry *)

Module QwenOAuthDialogExpiry.
Import Js DialogTypes.
Export QwenOAuthHandlers(TokenParams, mkTokenParams, deviceCode, codeVerifier).

(** The [useState] cells of the component. A render binds each of them to a
    constant; the closures created by that render ([startOAuthFlow],
    [pollForToken], the timer callbacks) keep reading those constants, and a
    setter only changes what the next render binds. *)
Record Ui : Type := mkUi {
  step : Step;
  st_deviceCode : string;
  verificationUrl : string;
  userCode : string;
  error : JValue;
  isLoading : bool;
  pollingStartTime : Z;
  deviceCodeExpiry : Z
}.

Definition initial_ui : Ui :=
  {| step := step_device_code; st_deviceCode := ""; verificationUrl := "";
     userCode := ""; error := JStr ""; isLoading := false;
     pollingStartTime := 0; deviceCodeExpiry := 0 |}.

Record Secret : Type := mkSecret { value : string }.

(** The argument of [updateSettings]. *)
Record SettingsUpdate : Type := mkSettingsUpdate {
  qwenAccessToken : Secret;
  qwenRefreshToken : Secret;
  qwenTokenExpiry : Z;
  qwenResourceUrl : string
}.

(** A pending [setTimeout] callback [() => pollForToken(...)]: its delay in
    milliseconds, the arguments of the call, and the render whose
    [pollForToken] it calls. *)
Record Timer : Type := mkTimer {
  delay : Z;
  poll : PollArgs;
  closure : Ui
}.

(** The component state together with what the dialog did to its
    collaborators: the [updateSettings] calls, the pending timers, the
    token requests sent through [qwenOAuthToken], the [openExternalUrl]
    calls and the success toasts, each most recent first. *)
Record World : Type := mkWorld {
  ui : Ui;
  settings : list SettingsUpdate;
  timers : list Timer;
  token_requests : list TokenParams;
  opened : list string;
  toasts : list string
}.

Definition initial_world : World :=
  {| ui := initial_ui; settings := []; timers := []; token_requests := [];
     opened := []; toasts := [] |}.

Definition with_ui (f : Ui → Ui) (w : World) : World :=
  {| ui := f (ui w); settings := settings w; timers := timers w;
     token_requests := token_requests w; opened := opened w;
     toasts := toasts w |}.

Definition setStep (s : Step) : World → World :=
  with_ui (fun u =>
    {| step := s; st_deviceCode := st_deviceCode u;
       verificationUrl := verificationUrl u; userCode := userCode u;
       error := error u; isLoading := isLoading u;
       pollingStartTime := pollingStartTime u;
       deviceCodeExpiry := deviceCodeExpiry u |}).

Definition setError (e : JValue) : World → World :=
  with_ui (fun u =>
    {| step := step u; st_deviceCode := st_deviceCode u;
       verificationUrl := verificationUrl u; userCode := userCode u;
       error := e; isLoading := isLoading u;
       pollingStartTime := pollingStartTime u;
       deviceCodeExpiry := deviceCodeExpiry u |}).

Definition setIsLoading (b : bool) : World → World :=
  with_ui (fun u =>
    {| step := step u; st_deviceCode := st_deviceCode u;
       verificationUrl := verificationUrl u; userCode := userCode u;
       error := error u; isLoading := b;
       pollingStartTime := pollingStartTime u;
       deviceCodeExpiry := deviceCodeExpiry u |}).

Definition setDeviceCodeExpiry (t : Z) : World → World :=
  with_ui (fun u =>
    {| step := step u; st_deviceCode := st_deviceCode u;
       verificationUrl := verificationUrl u; userCode := userCode u;
       error := error u; isLoading := isLoading u;
       pollingStartTime := pollingStartTime u;
       deviceCodeExpiry := t |}).

Definition setPollingStartTime (t : Z) : World → World :=
  with_ui (fun u =>
    {| step := step u; st_deviceCode := st_deviceCode u;
       verificationUrl := verificationUrl u; userCode := userCode u;
       error := error u; isLoading := isLoading u;
       pollingStartTime := t;
       deviceCodeExpiry := deviceCodeExpiry u |}).

(** [setDeviceCode], [setUserCode] and [setVerificationUrl] in a row. *)
Definition setCodes (r : DeviceCodeResult) : World → World :=
  with_ui (fun u =>
    {| step := step u; st_deviceCode := device_code r;
       verificationUrl := verification_uri_complete r;
       userCode := user_code r;
       error := error u; isLoading := isLoading u;
       pollingStartTime := pollingStartTime u;
       deviceCodeExpiry := deviceCodeExpiry u |}).

Definition updateSettings (s : SettingsUpdate) (w : World) : World :=
  {| ui := ui w; settings := s :: settings w; timers := timers w;
     token_requests := token_requests w; opened := opened w;
     toasts := toasts w |}.

Definition with_timers (ts : list Timer) (w : World) : World :=
  {| ui := ui w; settings := settings w; timers := ts;
     token_requests := token_requests w; opened := opened w;
     toasts := toasts w |}.

Definition setTimeout (t : Timer) (w : World) : World :=
  with_timers (t :: timers w) w.

Definition qwenOAuthToken (p : TokenParams) (w : World) : World :=
  {| ui := ui w; settings := settings w; timers := timers w;
     token_requests := p :: token_requests w; opened := opened w;
     toasts := toasts w |}.

Definition openExternalUrl (url : string) (w : World) : World :=
  {| ui := ui w; settings := settings w; timers := timers w;
     token_requests := token_requests w; opened := url :: opened w;
     toasts := toasts w |}.

Definition showSuccess (msg : string) (w : World) : World :=
  {| ui := ui w; settings := settings w; timers := timers w;
     token_requests := token_requests w; opened := opened w;
     toasts := msg :: toasts w |}.

Definition timed_out_message : string :=
  "Authentication timed out. The device code has expired. Please try again.".
Definition denied_message : string :=
  "Authentication was denied. Please try again.".
Definition expired_message : string :=
  "The authentication code has expired. Please try again.".

(** The retry test of the last [else] branch:
    [pollError?.message?.includes('fetch') ||
     pollError?.message?.includes('network') ||
     pollError?.code === 'ECONNRESET']; [None] when [includes] raises. *)
Definition is_network_error (pollError : Thrown) : option bool :=
  match opt_includes (prop pollError "message") "fetch" with
  | None => None
  | Some true => Some true
  | Some false =>
      match opt_includes (prop pollError "message") "network" with
      | None => None
      | Some true => Some true
      | Some false =>
          Some (strict_eq_str (prop pollError "code") "ECONNRESET")
      end
  end.

(** A network-class transient error: a caught value that carries no OAuth
    error code and that the retry test recognises. *)
Definition transient (pollError : Thrown) : Prop :=
  prop pollError "error" = JUndefined
  ∧ is_network_error pollError = Some true.

(** The [catch] block of [pollForToken]. A TypeError raised inside it
    rejects the promise of the call, which nobody handles: the state stays
    as it is. *)
Definition on_poll_error (render : Ui) (args : PollArgs) (pollError : Thrown)
    (w : World) : World :=
  if strict_eq_str (prop pollError "error") "authorization_pending" then
    setTimeout {| delay := pa_interval args * 1000; poll := args;
                  closure := render |} w
  else if strict_eq_str (prop pollError "error") "slow_down" then
    setTimeout {| delay := (pa_interval args + 5) * 1000;
                  poll := {| pa_deviceCode := pa_deviceCode args;
                             pa_codeVerifier := pa_codeVerifier args;
                             pa_interval := pa_interval args + 5 |};
                  closure := render |} w
  else if strict_eq_str (prop pollError "error") "access_denied" then
    setStep step_error (setError (JStr denied_message) w)
  else if strict_eq_str (prop pollError "error") "expired_token" then
    setStep step_error (setError (JStr expired_message) w)
  else
    match is_network_error pollError with
    | None => w
    | Some true =>
        setTimeout {| delay := pa_interval args * 1000; poll := args;
                      closure := render |} w
    | Some false =>
        setStep step_error
          (setError
             (or_else (prop pollError "error_description")
                (or_else (prop pollError "error")
                   (or_else (prop pollError "message")
                      (JStr "Authentication failed")))) w)
    end.

(** [pollForToken] of the render [render]: [now] is [Date.now()] on entry,
    [response] the outcome of the awaited [qwenOAuthToken] call and
    [now_done] is [Date.now()] once it has resolved. [updateSettings] is
    taken to succeed. *)
Definition pollForToken (render : Ui) (args : PollArgs) (now : Z)
    (response : Completion QwenTokenResponse) (now_done : Z)
    (w : World) : World :=
  if (now >? deviceCodeExpiry render)%Z then
    setStep step_error (setError (JStr timed_out_message) w)
  else
    let w := qwenOAuthToken (params_of args) w in
    match response with
    | Return result =>
        showSuccess success_toast
          (setStep step_success
             (updateSettings
                {| qwenAccessToken := {| value := access_token result |};
                   qwenRefreshToken :=
                     {| value := str_or (refresh_token result) "" |};
                   qwenTokenExpiry := now_done + expires_in result * 1000;
                   qwenResourceUrl :=
                     str_or (resource_url result) DASHSCOPE_URL |} w))
    | Throw pollError => on_poll_error render args pollError w
    end.

(** [startOAuthFlow], called in the world [w]: it is the closure of the
    render that shows the component state of [w], and so is the
    [pollForToken] its timer callback calls. [device] is the outcome of
    [qwenOAuthDeviceCode], [now_issued] is [Date.now()] when it resolved,
    [opening] the outcome of [openExternalUrl] and [now_polling] is
    [Date.now()] after it. *)
Definition startOAuthFlow (device : Completion DeviceCodeResult)
    (now_issued : Z) (opening : Completion unit) (now_polling : Z)
    (w : World) : World :=
  let render := ui w in
  let w := setDeviceCodeExpiry 0 (setError (JStr "") (setIsLoading true w)) in
  let failed err w :=
    setIsLoading false
      (setStep step_error (setError (JStr (start_error_message err)) w)) in
  match device with
  | Throw err => failed err w
  | Return result =>
      let w := setDeviceCodeExpiry (now_issued + dc_expires_in result * 1000)
                 (setCodes result w) in
      let w := openExternalUrl (verification_uri_complete result) w in
      match opening with
      | Throw err => failed err w
      | Return _ =>
          let w := setPollingStartTime now_polling (setStep step_polling w) in
          let w :=
            setTimeout
              {| delay := 3000;
                 poll := {| pa_deviceCode := device_code result;
                            pa_codeVerifier := code_verifier result;
                            pa_interval := interval_or_5 (interval result) |};
                 closure := render |} w in
          setIsLoading false w
      end
  end.

(** One wake-up of the polling loop. *)
Record Tick : Type := mkTick {
  now : Z;
  response : Completion QwenTokenResponse;
  now_done : Z
}.

(** The pending timer fires and runs its callback. *)
Definition fire (t : Tick) (w : World) : World :=
  match timers w with
  | [] => w
  | tm :: rest =>
      pollForToken (closure tm) (poll tm) (now t) (response t) (now_done t)
        (with_timers rest w)
  end.

(** The polling loop over the successive wake-ups. *)
Definition run (ticks : list Tick) (w : World) : World :=
  foldl (fun w t => fire t w) w ticks.

(** The "Try Again" button: [setStep('device-code')]. *)
Definition tryAgain : World → World := setStep step_device_code.

(** [handleClose]: [setStep('device-code'); setError(''); onClose()]; the
    [onClose] callback belongs to the parent component. *)
Definition handleClose (w : World) : World :=
  setError (JStr "") (setStep step_device_code w).

End QwenOAuthDialogExpiry.

(** *** The revision without expiry tracking *)

Module QwenOAuthDialog.
Import Js DialogTypes.
Export QwenOAuthHandlers(TokenParams, mkTokenParams, deviceCode, codeVerifier).

Record Ui : Type := mkUi {
  step : Step;
  st_deviceCode : string;
  verificationUrl : string;
  userCode : string;
  error : JValue;
  isLoading : bool
}.

Definition initial_ui : Ui :=
  {| step := step_device_code; st_deviceCode := ""; verificationUrl := "";
     userCode := ""; error := JStr ""; isLoading := false |}.

(** The argument of [updateSettings]. *)
Record SettingsUpdate : Type := mkSettingsUpdate {
  qwenAccessToken : string;
  qwenRefreshToken : string;
  qwenTokenExpiry : Z;
  qwenResourceUrl : string
}.

(** A pending [setTimeout] callback [() => pollForToken(...)]; this
    [pollForToken] reads no component state. *)
Record Timer : Type := mkTimer {
  delay : Z;
  poll : PollArgs
}.

Record World : Type := mkWorld {
  ui : Ui;
  settings : list SettingsUpdate;
  timers : list Timer;
  token_requests : list TokenParams;
  opened : list string;
  toasts : list string
}.

Definition initial_world : World :=
  {| ui := initial_ui; settings := []; timers := []; token_requests := [];
     opened := []; toasts := [] |}.

Definition with_ui (f : Ui → Ui) (w : World) : World :=
  {| ui := f (ui w); settings := settings w; timers := timers w;
     token_requests := token_requests w; opened := opened w;
     toasts := toasts w |}.

Definition setStep (s : Step) : World → World :=
  with_ui (fun u =>
    {| step := s; st_deviceCode := st_deviceCode u;
       verificationUrl := verificationUrl u; userCode := userCode u;
       error := error u; isLoading := isLoading u |}).

Definition setError (e : JValue) : World → World :=
  with_ui (fun u =>
    {| step := step u; st_deviceCode := st_deviceCode u;
       verificationUrl := verificationUrl u; userCode := userCode u;
       error := e; isLoading := isLoading u |}).

Definition setIsLoading (b : bool) : World → World :=
  with_ui (fun u =>
    {| step := step u; st_deviceCode := st_deviceCode u;
       verificationUrl := verificationUrl u; userCode := userCode u;
       error := error u; isLoading := b |}).

Definition setCodes (r : DeviceCodeResult) : World → World :=
  with_ui (fun u =>
    {| step := step u; st_deviceCode := device_code r;
       verificationUrl := verification_uri_complete r;
       userCode := user_code r;
       error := error u; isLoading := isLoading u |}).

Definition updateSettings (s : SettingsUpdate) (w : World) : World :=
  {| ui := ui w; settings := s :: settings w; timers := timers w;
     token_requests := token_requests w; opened := opened w;
     toasts := toasts w |}.

Definition with_timers (ts : list Timer) (w : World) : World :=
  {| ui := ui w; settings := settings w; timers := ts;
     token_requests := token_requests w; opened := opened w;
     toasts := toasts w |}.

Definition setTimeout (t : Timer) (w : World) : World :=
  with_timers (t :: timers w) w.

Definition qwenOAuthToken (p : TokenParams) (w : World) : World :=
  {| ui := ui w; settings := settings w; timers := timers w;
     token_requests := p :: token_requests w; opened := opened w;
     toasts := toasts w |}.

Definition openExternalUrl (url : string) (w : World) : World :=
  {| ui := ui w; settings := settings w; timers := timers w;
     token_requests := token_requests w; opened := url :: opened w;
     toasts := toasts w |}.

Definition showSuccess (msg : string) (w : World) : World :=
  {| ui := ui w; settings := settings w; timers := timers w;
     token_requests := token_requests w; opened := opened w;
     toasts := msg :: toasts w |}.

(** [pollError.error] without optional chaining raises a TypeError on null
    and undefined. *)
Definition nullish (t : Thrown) : bool :=
  match t with
  | ThrownValue JUndefined | ThrownValue JNull => true
  | _ => false
  end.

(** The [catch] block of [pollForToken]. *)
Definition on_poll_error (args : PollArgs) (pollError : Thrown)
    (w : World) : World :=
  if nullish pollError then w
  else if strict_eq_str (prop pollError "error") "authorization_pending" then
    setTimeout {| delay := pa_interval args * 1000; poll := args |} w
  else if strict_eq_str (prop pollError "error") "slow_down" then
    setTimeout {| delay := (pa_interval args + 5) * 1000;
                  poll := {| pa_deviceCode := pa_deviceCode args;
                             pa_codeVerifier := pa_codeVerifier args;
                             pa_interval := pa_interval args + 5 |} |} w
  else
    setStep step_error
      (setError
         (or_else (prop pollError "error_description")
            (or_else (prop pollError "error")
               (JStr "Authentication failed"))) w).

(** [pollForToken]: [response] is the outcome of the awaited
    [qwenOAuthToken] call, [now_done] is [Date.now()] once it has resolved.
    [updateSettings] is taken to succeed. *)
Definition pollForToken (args : PollArgs)
    (response : Completion QwenTokenResponse) (now_done : Z)
    (w : World) : World :=
  let w := qwenOAuthToken (params_of args) w in
  match response with
  | Return result =>
      showSuccess success_toast
        (setStep step_success
           (updateSettings
              {| qwenAccessToken := access_token result;
                 qwenRefreshToken := str_or (refresh_token result) "";
                 qwenTokenExpiry := now_done + expires_in result * 1000;
                 qwenResourceUrl :=
                   str_or (resource_url result) DASHSCOPE_URL |} w))
  | Throw pollError => on_poll_error args pollError w
  end.

(** One round of the polling loop. *)
Record Tick : Type := mkTick {
  response : Completion QwenTokenResponse;
  now_done : Z
}.

(** [startOAuthFlow]: [device] is the outcome of [qwenOAuthDeviceCode],
    [opening] the outcome of [openExternalUrl]; the first [pollForToken]
    call is made at once and [first] is what it meets. *)
Definition startOAuthFlow (device : Completion DeviceCodeResult)
    (opening : Completion unit) (first : Tick) (w : World) : World :=
  let w := setError (JStr "") (setIsLoading true w) in
  let failed err w :=
    setIsLoading false
      (setStep step_error (setError (JStr (start_error_message err)) w)) in
  match device with
  | Throw err => failed err w
  | Return result =>
      let w := setCodes result w in
      let w := openExternalUrl (verification_uri_complete result) w in
      match opening with
      | Throw err => failed err w
      | Return _ =>
          let w := setStep step_polling w in
          let w := setIsLoading false w in
          pollForToken
            {| pa_deviceCode := device_code result;
               pa_codeVerifier := code_verifier result;
               pa_interval := interval_or_5 (interval result) |}
            (response first) (now_done first) w
      end
  end.

(** The pending timer fires and runs its callback. *)
Definition fire (t : Tick) (w : World) : World :=
  match timers w with
  | [] => w
  | tm :: rest =>
      pollForToken (poll tm) (response t) (now_done t) (with_timers rest w)
  end.

(** The polling loop over the successive rounds. *)
Definition run (ticks : list Tick) (w : World) : World :=
  foldl (fun w t => fire t w) w ticks.

(** [handleClose]: [setStep('device-code'); setError(''); onClose()]; the
    [onClose] callback belongs to the parent component. *)
Definition handleClose (w : World) : World :=
  setError (JStr "") (setStep step_device_code w).

End QwenOAuthDialog.

(** ** The Action Validator *)

Module ActionValidator.

(** Modelled from the spec: the data model (section 3), [ActionNode] with the
    three kinds it names. *)
Inductive ActionNode : Type :=
  | WriteFile (path content : string)
  | AddDependency (name version : string)
  | ExecuteStatement (statement : string).

(** Modelled from the spec: the rejection reasons of section 7
    ([ValidationRejected] and its subtype [PathEscape]). *)
Inductive Rejection : Type :=
  | MissingAttribute
  | PathEscape
  | BadDependencyName
  | EmptyStatement.

(** The segments of a path, split at every '/'. *)
Fixpoint segments (p : string) : list string :=
  match p with
  | EmptyString => [ "" ]
  | String c rest =>
      if Ascii.eqb c "/" then "" :: segments rest
      else
        match segments rest with
        | [] => [ String c "" ]
        | seg :: segs => String c seg :: segs
        end
  end.

Definition is_absolute (p : string) : bool := String.prefix "/" p.

(** Does the path have a `..` segment? *)
Definition has_dotdot (p : string) : bool :=
  existsb (String.eqb "..") (segments p).

(** Resolution of segments from a directory given by its components: empty
    and `.` segments are skipped, `..` drops the last component (and stays
    at the top when there is none). *)
Fixpoint walk (dir : list string) (segs : list string) : list string :=
  match segs with
  | [] => dir
  | s :: rest =>
      if String.eqb s "" || String.eqb s "." then walk dir rest
      else if String.eqb s ".." then walk (removelast dir) rest
      else walk (dir ++ [ s ]) rest
  end.

(** Modelled from the spec: "resolving the path against the project root"
    (section 4.2 (c)); the validator's code is not among the sources. An
    absolute path resolves from the top, a relative one from the root. *)
Definition resolve (root p : string) : list string :=
  if is_absolute p then walk [] (segments p)
  else walk (walk [] (segments root)) (segments p).

Fixpoint is_prefix (l1 l2 : list string) : bool :=
  match l1, l2 with
  | [], _ => true
  | _ :: _, [] => false
  | x :: l1', y :: l2' => String.eqb x y && is_prefix l1' l2'
  end.

(** The resolved location is the root or below it. *)
Definition inside (root p : string) : bool :=
  is_prefix (walk [] (segments root)) (resolve root p).

(** The resolved location is below the root and is not the root itself. *)
Definition strictly_inside (root p : string) : bool :=
  inside root p
  && (length (walk [] (segments root)) <? length (resolve root p))%nat.

Definition escapes (root p : string) : bool := negb (inside root p).

Section Validator.

(** The project root. *)
Variable root : string.

(** The "conservative identifier pattern" of check (d), which the spec does
    not spell out. *)
Variable identifier_ok : string → bool.

(** Modelled from the spec: the contract of the Action Validator (section
    4.2), whose code is not among the sources. (a) holds of every
    [ActionNode]; (b) the required attributes are non-empty; (c) a path is
    rejected "on `..` traversal or absolute paths outside root" (section
    8: "containing `..` segments or escaping the project root"); (d) a
    dependency name matches the identifier pattern; (e) a statement is
    non-empty. *)
Definition validate (a : ActionNode) : Rejection + ActionNode :=
  match a with
  | WriteFile path _ =>
      if String.eqb path "" then inl MissingAttribute
      else if has_dotdot path || escapes root path then inl PathEscape
      else inr a
  | AddDependency name version =>
      if String.eqb name "" || String.eqb version "" then inl MissingAttribute
      else if negb (identifier_ok name) then inl BadDependencyName
      else inr a
  | ExecuteStatement statement =>
      if String.eqb statement "" then inl EmptyStatement
      else inr a
  end.

End Validator.

(** The path argument of a path-bearing action. *)
Definition path_of (a : ActionNode) : option string :=
  match a with
  | WriteFile path _ => Some path
  | _ => None
  end.

Definition rejected (r : Rejection + ActionNode) : Prop :=
  ∃ reason, r = inl reason.

End ActionValidator.

(** ** The hooks that read the stored credential

    [useIsQwenAuthenticated] and [useQwenProviderStatus], the second file of
    [src/components/QwenOAuthDialog.tsx]. [useSettings] is not among the
    sources: the settings it returns and [Date.now()] are arguments. *)

Module QwenAuthHooks.
Import Js.

(** The two settings the hooks read. The access token is whatever was stored
    (a string, or a [{ value }] object); the expiry is a number or is
    missing. *)
Record Settings : Type := mkSettings {
  qwenAccessToken : JValue;
  qwenTokenExpiry : option Z
}.

(** [!settings?.qwenAccessToken || !settings?.qwenTokenExpiry], the guard of
    both hooks; [settings] is [None] when it is null or undefined. A number
    is falsy when it is 0. *)
Definition not_configured (settings : option Settings) : bool :=
  match settings with
  | None => true
  | Some s =>
      negb (truthy (qwenAccessToken s))
      || match qwenTokenExpiry s with
         | None => true
         | Some expiry => (expiry =? 0)%Z
         end
  end.

(** [settings.qwenTokenExpiry] once the guard has passed. *)
Definition expiry_of (settings : option Settings) : Z :=
  default 0 (settings ≫= qwenTokenExpiry).

Definition useIsQwenAuthenticated (settings : option Settings) (now : Z)
    : bool :=
  if not_configured settings then false
  else (now <? expiry_of settings)%Z.

Record ProviderStatus : Type := mkStatus {
  isSetup : bool;
  isExpired : bool;
  (** [null] is [None] *)
  expiresInDays : option Z
}.

(** [1000 * 60 * 60 * 24]. *)
Definition MS_PER_DAY : Z := 1000 * 60 * 60 * 24.

(** [Math.ceil(x / d)] for a positive [d]. The quotient of the doubles and
    the exact quotient have the same ceiling for the integers met here
    (remaining times below 2^52 ms): a quotient that is not an integer lies
    at least [1 / d] from one, more than the rounding error. *)
Definition ceil_div (x d : Z) : Z := - (- x / d).

Definition useQwenProviderStatus (settings : option Settings) (now : Z)
    : ProviderStatus :=
  if not_configured settings then
    {| isSetup := false; isExpired := false; expiresInDays := None |}
  else
    let isExpired := (now >=? expiry_of settings)%Z in
    let expiresInDays :=
      if isExpired then None
      else Some (ceil_div (expiry_of settings - now) MS_PER_DAY) in
    {| isSetup := negb isExpired; isExpired := isExpired;
       expiresInDays := expiresInDays |}.

End QwenAuthHooks.

(** ** The shell handlers

    "open-external-url" and "show-item-in-folder", the third file of
    [src/components/QwenOAuthDialog.tsx]. *)

Module ShellHandlers.
Import Js.

(** The options of the [BrowserWindow] an OAuth URL is loaded in. *)
Record WindowOptions : Type := mkWindowOptions {
  width : Z;
  height : Z;
  show : bool;
  nodeIntegration : bool;
  contextIsolation : bool;
  titleBarStyle : string;
  resizable : bool;
  minimizable : bool;
  maximizable : bool;
  alwaysOnTop : bool;
  modal : bool
}.

Definition oauth_window_options : WindowOptions :=
  {| width := 600; height := 700; show := false;
     nodeIntegration := false; contextIsolation := true;
     titleBarStyle := "default"; resizable := true;
     minimizable := false; maximizable := false;
     alwaysOnTop := true; modal := false |}.

(** What a handler asks of Electron. *)
Inductive ShellAction : Type :=
  | LoadInPopup (options : WindowOptions) (url : string)
  | OpenExternal (url : string)
  | ShowItemInFolder (fullPath : string).

(** [url.includes('oauth') || url.includes('device') ||
     url.includes('qwen.ai')]. *)
Definition isOAuthUrl (url : string) : bool :=
  includes "oauth" url || includes "device" url || includes "qwen.ai" url.

(** The "open-external-url" handler: the actions it asked for and how it
    completed. [external] is the outcome of the awaited
    [shell.openExternal]. *)
Definition open_external_url (url : string) (external : Completion unit)
    : list ShellAction * Completion unit :=
  if String.eqb url "" then ([], Throw (new_Error "No URL provided."))
  else if negb (String.prefix "http://" url)
          && negb (String.prefix "https://" url) then
    ([], Throw (new_Error
                  ("Attempted to open invalid or non-http URL: " ++ url)))
  else if isOAuthUrl url then
    ([ LoadInPopup oauth_window_options url ], Return ())
  else ([ OpenExternal url ], external).

(** The "show-item-in-folder" handler. *)
Definition show_item_in_folder (fullPath : string)
    : list ShellAction * Completion unit :=
  if String.eqb fullPath "" then
    ([], Throw (new_Error "No file path provided."))
  else ([ ShowItemInFolder fullPath ], Return ()).

End ShellHandlers.

(** Short names for the two revisions of the dialog. *)
Module Expiry := QwenOAuthDialogExpiry.
Module Plain := QwenOAuthDialog.

(** ** Concrete runs used below *)

Module Scenarios.
Import Js DialogTypes.

Definition first_result : DeviceCodeResult :=
  {| device_code := "dc-1"; user_code := "AAAA-1111";
     verification_uri_complete :=
       "https://chat.qwen.ai/device?user_code=AAAA-1111";
     dc_expires_in := 600; interval := Some 5; code_verifier := "v-1" |}.

Definition second_result : DeviceCodeResult :=
  {| device_code := "dc-2"; user_code := "BBBB-2222";
     verification_uri_complete :=
       "https://chat.qwen.ai/device?user_code=BBBB-2222";
     dc_expires_in := 60; interval := Some 5; code_verifier := "v-2" |}.

(** The bodies of 400 answers of the token endpoint. *)
Definition oauth_error (code : string) : Thrown :=
  ThrownValue (JObj {[ "error" := JStr code ]}).

Definition pending : Thrown := oauth_error "authorization_pending".
Definition slow_down : Thrown := oauth_error "slow_down".
Definition denied : Thrown := oauth_error "access_denied".

(** What [fetch] rejects with when the network is down. *)
Definition fetch_failed : Thrown :=
  ThrownError {| message := "TypeError: fetch failed"; code := None |}.

Definition token : QwenTokenResponse :=
  {| access_token := "at-1"; refresh_token := None; token_type := "Bearer";
     expires_in := 3600; scope := "openid"; resource_url := None |}.

Definition args : PollArgs :=
  {| pa_deviceCode := "dc-1"; pa_codeVerifier := "v-1"; pa_interval := 5 |}.

(** The dialog after a first flow (started at 1000 ms, 600 s to expiry) that
    timed out at its first poll, "Try Again", and a second flow whose device
    code was issued at 10000 ms with 60 s to expiry. *)
Definition second_flow : QwenOAuthDialogExpiry.World :=
  let w1 := QwenOAuthDialogExpiry.startOAuthFlow (Return first_result) 1000
              (Return ()) 1000 QwenOAuthDialogExpiry.initial_world in
  let w2 := QwenOAuthDialogExpiry.run
              [ {| QwenOAuthDialogExpiry.now := 4000;
                   QwenOAuthDialogExpiry.response := Throw pending;
                   QwenOAuthDialogExpiry.now_done := 4100 |} ] w1 in
  QwenOAuthDialogExpiry.startOAuthFlow (Return second_result) 10000
    (Return ()) 10000 (QwenOAuthDialogExpiry.tryAgain w2).

(** A render of the dialog with expiry tracking, in the 'polling' step, and
    a world with one poll of that render pending. *)
Definition polling_ui : QwenOAuthDialogExpiry.Ui :=
  {| QwenOAuthDialogExpiry.step := step_polling;
     QwenOAuthDialogExpiry.st_deviceCode := "dc-1";
     QwenOAuthDialogExpiry.verificationUrl :=
       "https://chat.qwen.ai/device?user_code=AAAA-1111";
     QwenOAuthDialogExpiry.userCode := "AAAA-1111";
     QwenOAuthDialogExpiry.error := JStr "";
     QwenOAuthDialogExpiry.isLoading := false;
     QwenOAuthDialogExpiry.pollingStartTime := 1000;
     QwenOAuthDialogExpiry.deviceCodeExpiry := 601000 |}.

Definition polling_timer : QwenOAuthDialogExpiry.Timer :=
  {| QwenOAuthDialogExpiry.delay := 3000;
     QwenOAuthDialogExpiry.poll := args;
     QwenOAuthDialogExpiry.closure := polling_ui |}.

Definition polling_world : QwenOAuthDialogExpiry.World :=
  {| QwenOAuthDialogExpiry.ui := polling_ui;
     QwenOAuthDialogExpiry.settings := [];
     QwenOAuthDialogExpiry.timers := [ polling_timer ];
     QwenOAuthDialogExpiry.token_requests := [];
     QwenOAuthDialogExpiry.opened := [];
     QwenOAuthDialogExpiry.toasts := [] |}.

Definition tick_at (now : Z) (r : Completion QwenTokenResponse)
    : QwenOAuthDialogExpiry.Tick :=
  {| QwenOAuthDialogExpiry.now := now;
     QwenOAuthDialogExpiry.response := r;
     QwenOAuthDialogExpiry.now_done := now + 100 |}.

(** Five polls answered "still pending", five seconds apart. *)
Definition five_pending : list QwenOAuthDialogExpiry.Tick :=
  (λ k : Z, tick_at (4000 + 5000 * k) (Throw pending)) <$> [0; 1; 2; 3; 4].

(** The same for the dialog without expiry tracking. *)
Definition plain_timer : QwenOAuthDialog.Timer :=
  {| QwenOAuthDialog.delay := 5000; QwenOAuthDialog.poll := args |}.

Definition plain_polling_world : QwenOAuthDialog.World :=
  {| QwenOAuthDialog.ui :=
       {| QwenOAuthDialog.step := step_polling;
          QwenOAuthDialog.st_deviceCode := "dc-1";
          QwenOAuthDialog.verificationUrl :=
            "https://chat.qwen.ai/device?user_code=AAAA-1111";
          QwenOAuthDialog.userCode := "AAAA-1111";
          QwenOAuthDialog.error := JStr "";
          QwenOAuthDialog.isLoading := false |};
     QwenOAuthDialog.settings := [];
     QwenOAuthDialog.timers := [ plain_timer ];
     QwenOAuthDialog.token_requests := [];
     QwenOAuthDialog.opened := [];
     QwenOAuthDialog.toasts := [] |}.

Definition plain_tick (r : Completion QwenTokenResponse)
    : QwenOAuthDialog.Tick :=
  {| QwenOAuthDialog.response := r; QwenOAuthDialog.now_done := 0 |}.

Definition plain_five_pending : list QwenOAuthDialog.Tick :=
  replicate 5 (plain_tick (Throw pending)).

(** A stand-in for the platform digest, an array of random bytes and answers
    of the two endpoints. *)
Definition digest (bytes : list ascii) : list ascii := rev bytes.

Definition random_bytes : list ascii := list_ascii_of_string "light work.".

Definition device_answer : JValue :=
  JObj (<[ "device_code" := JStr "dc-1" ]>
        (<[ "user_code" := JStr "AAAA-1111" ]>
        (<[ "verification_uri" := JStr "https://chat.qwen.ai/device" ]>
        (<[ "verification_uri_complete" :=
              JStr "https://chat.qwen.ai/device?user_code=AAAA-1111" ]>
        (<[ "expires_in" := JNum 600 ]>
        {[ "interval" := JNum 5 ]}))))).

Definition device_fetch (_ : QwenOAuthHandlers.Request)
    : QwenOAuthHandlers.FetchOutcome :=
  QwenOAuthHandlers.Fetched
    {| QwenOAuthHandlers.status := 200;
       QwenOAuthHandlers.statusText := "OK";
       QwenOAuthHandlers.json := inr device_answer |}.

Definition pending_fetch (_ : QwenOAuthHandlers.Request)
    : QwenOAuthHandlers.FetchOutcome :=
  QwenOAuthHandlers.Fetched
    {| QwenOAuthHandlers.status := 400;
       QwenOAuthHandlers.statusText := "Bad Request";
       QwenOAuthHandlers.json :=
         inr (JObj {[ "error" := JStr "authorization_pending" ]}) |}.

End Scenarios.

(** ** More concrete data *)

Module Examples.
Import Js DialogTypes Scenarios.

(** Thirty-two bytes, and a stand-in digest with a 32-byte result. *)
Definition bytes32 : list ascii := replicate 32 "A"%char.
Definition digest32 (_ : list ascii) : list ascii := replicate 32 "000"%char.

(** Two "slow down" answers around a "still pending" one. *)
Definition slow_ticks : list QwenOAuthDialogExpiry.Tick :=
  [ tick_at 4000 (Throw slow_down); tick_at 14000 (Throw pending);
    tick_at 24000 (Throw slow_down) ].

Definition plain_slow_ticks : list QwenOAuthDialog.Tick :=
  [ plain_tick (Throw slow_down); plain_tick (Throw pending);
    plain_tick (Throw slow_down) ].

(** The timers those runs end with. *)
Definition slowed_args : PollArgs :=
  {| pa_deviceCode := "dc-1"; pa_codeVerifier := "v-1"; pa_interval := 15 |}.

Definition slowed_timer : QwenOAuthDialogExpiry.Timer :=
  {| QwenOAuthDialogExpiry.delay := 15000;
     QwenOAuthDialogExpiry.poll := slowed_args;
     QwenOAuthDialogExpiry.closure := polling_ui |}.

Definition plain_slowed_timer : QwenOAuthDialog.Timer :=
  {| QwenOAuthDialog.delay := 15000; QwenOAuthDialog.poll := slowed_args |}.

(** A wake-up after the expiry 601000 of [polling_ui]. *)
Definition late_tick : QwenOAuthDialogExpiry.Tick :=
  tick_at 700000 (Throw pending).

(** Stored settings, 100000000 ms before their expiry. *)
Definition stored : QwenAuthHooks.Settings :=
  {| QwenAuthHooks.qwenAccessToken := JStr "at-1";
     QwenAuthHooks.qwenTokenExpiry := Some 200000000 |}.

Definition verification_url : string :=
  "https://chat.qwen.ai/device?user_code=AAAA-1111".

(** The dialog of [polling_world] (expiry 601000 in its state) with no poll
    pending. *)
Definition idle_world : QwenOAuthDialogExpiry.World :=
  QwenOAuthDialogExpiry.with_timers [] polling_world.

(** The timer a flow started there has pending after [slow_ticks]. *)
Definition idle_world_slowed_timer : QwenOAuthDialogExpiry.Timer :=
  {| QwenOAuthDialogExpiry.delay := 15000;
     QwenOAuthDialogExpiry.poll := slowed_args;
     QwenOAuthDialogExpiry.closure := polling_ui |}.

Definition server_down : Thrown :=
  ThrownError {| message := "Service unavailable"; code := None |}.

End Examples.

(** * Properties *)

(** ** The proof-key encoding *)

Section Base64.
Import QwenOAuthHandlers.

Lemma urlsafe_digit (x : sextet) :
  urlsafe_char (digit base64_alphabet x) = digit base64url_alphabet x.
Proof.
  destruct x as [[[[[b5 b4] b3] b2] b1] b0].
  destruct b5, b4, b3, b2, b1, b0; reflexivity.
Qed.

Lemma digit_url_not_pad (x : sextet) :
  Ascii.eqb (digit base64url_alphabet x) "=" = false.
Proof.
  destruct x as [[[[[b5 b4] b3] b2] b1] b0].
  destruct b5, b4, b3, b2, b1, b0; reflexivity.
Qed.


Lemma urlsafe_digits (xs : list sextet) :
  List.filter keep (urlsafe_char <$> (digit base64_alphabet <$> xs))
  = digit base64url_alphabet <$> xs.
Proof.
  induction xs as [|x xs IH]; [reflexivity|].
  cbn [fmap list_fmap List.filter]. rewrite urlsafe_digit.
  unfold keep at 1. rewrite digit_url_not_pad. cbn [negb].
  f_equal. exact IH.
Qed.

(** Induction over a list three elements at a time, as [btoa] reads it. *)
Lemma list_ind3 {A} (P : list A → Prop) :
  P [] → (∀ a, P [a]) → (∀ a b, P [a; b]) →
  (∀ a b c l, P l → P (a :: b :: c :: l)) →
  ∀ l, P l.
Proof.
  intros H0 H1 H2 H3.
  assert (H : ∀ l, P l ∧ (∀ a, P (a :: l)) ∧ (∀ a b, P (a :: b :: l))).
  { induction l as [|x l (IH0 & IH1 & IH2)]; [by auto|].
    split_and!; [apply IH1 | intros; apply IH2 | intros; apply H3, IH0]. }
  intros l. apply H.
Qed.

Lemma urlsafe_btoa_list (bytes : list ascii) :
  List.filter keep (urlsafe_char <$> btoa_list bytes) = base64url_spec bytes.
Proof.
  induction bytes as [|a|a b|a b c rest IH] using list_ind3;
    cbn [btoa_list base64url_spec].
  - reflexivity.
  - rewrite fmap_app, List.filter_app, urlsafe_digits. cbn.
    by rewrite app_nil_r.
  - rewrite fmap_app, List.filter_app, urlsafe_digits. cbn.
    by rewrite app_nil_r.
  - by rewrite fmap_app, List.filter_app, urlsafe_digits, IH.
Qed.

(** The [btoa]-and-replace expression of the handlers computes unpadded
    base64url. *)
Lemma btoa_urlsafe_spec (bytes : list ascii) :
  btoa_urlsafe bytes = string_of_list_ascii (base64url_spec bytes).
Proof.
  unfold btoa_urlsafe, remove_char, replace_char, btoa.
  rewrite !list_ascii_of_string_of_list_ascii.
  rewrite <- list_fmap_compose.
  f_equal. apply urlsafe_btoa_list.
Qed.



Lemma base64url_spec_length3 (a b c : ascii) (rest : list ascii) :
  length (base64url_spec (a :: b :: c :: rest))
  = (4 + length (base64url_spec rest))%nat.
Proof.
  cbn [base64url_spec]. rewrite length_app. by destruct a, b, c.
Qed.

(** The verifier made from the 32 random bytes has 43 characters. *)
Lemma generateCodeVerifier_length (array : list ascii) :
  length array = 32%nat →
  String.length (generateCodeVerifier array) = 43%nat.
Proof.
  intros Hlen. unfold generateCodeVerifier.
  rewrite btoa_urlsafe_spec.
  rewrite <- (list_ascii_of_string_of_list_ascii (base64url_spec array)) at 1.
  assert (Hl : ∀ s, String.length s = length (list_ascii_of_string s)).
  { induction s as [|c s IH]; [reflexivity|]. simpl. by rewrite IH. }
  rewrite Hl, !list_ascii_of_string_of_list_ascii.
  do 32 (destruct array as [|? array]; [simpl in Hlen; lia|]).
  destruct array; [|simpl in Hlen; lia].
  rewrite !base64url_spec_length3.
  match goal with |- context [base64url_spec [?a; ?b]] => by destruct a, b end.
Qed.

End Base64.

(** ** The two handlers *)

Section Handlers.
Import Js QwenOAuthHandlers.

Variable sha256 : list ascii → list ascii.


(** C10. The token handler throws the parsed JSON body itself exactly when
    the endpoint answers 400 with a JSON body; on any other non-OK status it
    throws [Error("Token request failed: <status> <statusText>")]; whatever
    it throws with an [error] property therefore comes from a 400 answer. *)
Theorem token_handler_propagates_400_body
    (params : TokenParams) (fetch : Request → FetchOutcome) :
  (∀ errorData,
     token_handler params fetch = Throw (ThrownValue errorData)
     ↔ ∃ response,
         fetch (token_request params) = Fetched response
         ∧ status response = 400
         ∧ json response = inr errorData)
  ∧ (∀ errorData,
       prop (ThrownValue errorData) "error" = get errorData "error")
  ∧ (∀ response,
       fetch (token_request params) = Fetched response →
       ok response = false →
       status response ≠ 400 →
       token_handler params fetch
       = Throw (new_Error ("Token request failed: "
                           ++ pretty (status response) ++ " "
                           ++ statusText response)))
  ∧ (∀ thrown,
       token_handler params fetch = Throw thrown →
       prop thrown "error" ≠ JUndefined →
       ∃ response,
         fetch (token_request params) = Fetched response
         ∧ status response = 400).
Proof.
  unfold token_handler.
  destruct (fetch (token_request params)) as [e|response] eqn:Hfetch.
  { split; [|split; [|split]].
    - intros errorData. split; [discriminate|].
      by intros (response & ? & _).
    - reflexivity.
    - discriminate.
    - intros thrown [= <-]. by cbn. }
  unfold ok.
  destruct (Z.eqb_spec (status response) 400) as [H400|H400].
  - rewrite H400. cbn [negb andb Z.leb Z.compare Pos.compare Pos.compare_cont].
    cbn. split; [|split; [|split]].
    + intros errorData. destruct (json response) as [e|d] eqn:Hjson.
      * split; [discriminate|]. intros (r & [= <-] & _ & Hj). congruence.
      * split.
        -- intros [= <-]. by exists response.
        -- intros (r & [= <-] & _ & Hj). congruence.
    + reflexivity.
    + intros r [= <-] _ Hne. done.
    + intros thrown _ _. by exists response.
  - split; [|split; [|split]].
    + intros errorData. split.
      * destruct (_ && _); cbn [negb]; [|discriminate].
        destruct (json response); discriminate.
      * intros (r & [= <-] & ? & _). done.
    + reflexivity.
    + intros r [= <-] Hok _. by rewrite Hok.
    + intros thrown.
      destruct (_ && _); cbn [negb].
      * destruct (json response); [|discriminate].
        intros [= <-]. by cbn.
      * intros [= <-]. by cbn.
Qed.

End Handlers.

(** ** Reading caught values *)

Section Caught.
Import Js.

Lemma strict_eq_str_true (v : JValue) (lit : string) :
  strict_eq_str v lit = true ↔ v = JStr lit.
Proof.
  destruct v; cbn; try (split; [discriminate|congruence]).
  rewrite String.eqb_eq. split; congruence.
Qed.

Lemma strict_eq_str_false (v : JValue) (lit : string) :
  strict_eq_str v lit = false ↔ v ≠ JStr lit.
Proof.
  rewrite <- strict_eq_str_true. by destruct (strict_eq_str v lit).
Qed.

Lemma strict_eq_str_other (v : JValue) (s lit : string) :
  v = JStr s → s ≠ lit → strict_eq_str v lit = false.
Proof.
  intros -> Hne. cbn. by apply String.eqb_neq.
Qed.

(** A caught value with a string [error] property is neither null nor
    undefined. *)
Lemma error_code_not_nullish (e : Thrown) (c : string) :
  prop e "error" = JStr c → QwenOAuthDialog.nullish e = false.
Proof.
  destruct e as [?|[]]; cbn; done.
Qed.

(** The expiry test of [pollForToken]. *)
Lemma gtb_false_of_le (now expiry : Z) :
  (now ≤ expiry)%Z → (now >? expiry)%Z = false.
Proof.
  intros H. rewrite Z.gtb_ltb. apply Z.ltb_ge. lia.
Qed.

Lemma gtb_true_of_gt (now expiry : Z) :
  (expiry < now)%Z → (now >? expiry)%Z = true.
Proof.
  intros H. rewrite Z.gtb_ltb. apply Z.ltb_lt. lia.
Qed.

End Caught.

(** ** The polling loop of the dialog that tracks expiry *)

Section ExpiryLoop.
Import Js DialogTypes.

Implicit Types (w : Expiry.World) (render : Expiry.Ui) (args : PollArgs).
Implicit Types (e : Thrown) (tm : Expiry.Timer).

Lemma cons_neq {A} (x : A) (l : list A) : l ≠ x :: l.
Proof.
  intros H. apply (f_equal length) in H. simpl in H. lia.
Qed.

(** What a [pollForToken] call can do: stop (no new timer), or leave the
    component state alone and schedule one more call of the same render with
    the same codes and an interval that is the old one or the old one plus
    five. *)
Lemma expiry_poll_cases render args now r now_done w :
  let w' := Expiry.pollForToken render args now r now_done w in
  Expiry.timers w' = Expiry.timers w
  ∨ ∃ tm,
      Expiry.timers w' = tm :: Expiry.timers w
      ∧ Expiry.ui w' = Expiry.ui w
      ∧ Expiry.settings w' = Expiry.settings w
      ∧ Expiry.toasts w' = Expiry.toasts w
      ∧ Expiry.closure tm = render
      ∧ pa_deviceCode (Expiry.poll tm) = pa_deviceCode args
      ∧ pa_codeVerifier (Expiry.poll tm) = pa_codeVerifier args
      ∧ Expiry.delay tm = pa_interval (Expiry.poll tm) * 1000
      ∧ (pa_interval (Expiry.poll tm) = pa_interval args
         ∨ pa_interval (Expiry.poll tm) = pa_interval args + 5).
Proof.
  unfold Expiry.pollForToken.
  destruct (now >? Expiry.deviceCodeExpiry render)%Z; [by left|].
  destruct r as [result|e]; [by left|].
  unfold Expiry.on_poll_error.
  repeat (destruct (strict_eq_str _ _);
          [first [ by left | right; eexists; by cbn; eauto 12 ] |]).
  destruct (Expiry.is_network_error e) as [[]|];
    first [ by left | right; eexists; by cbn; eauto 12 ].
Qed.


(** Only a resolved token call reaches [updateSettings], [showSuccess] or the
    success step. *)
Lemma expiry_poll_rejected render args now e now_done w :
  let w' := Expiry.pollForToken render args now (Throw e) now_done w in
  Expiry.settings w' = Expiry.settings w
  ∧ Expiry.toasts w' = Expiry.toasts w
  ∧ (Expiry.step (Expiry.ui w') = Expiry.step (Expiry.ui w)
     ∨ Expiry.step (Expiry.ui w') = step_error).
Proof.
  unfold Expiry.pollForToken.
  destruct (now >? Expiry.deviceCodeExpiry render)%Z; [by auto|].
  unfold Expiry.on_poll_error.
  repeat (destruct (strict_eq_str _ _); [by auto|]).
  by destruct (Expiry.is_network_error e) as [[]|]; auto.
Qed.

Lemma expiry_run_cons t ticks w :
  Expiry.run (t :: ticks) w = Expiry.run ticks (Expiry.fire t w).
Proof. reflexivity. Qed.

Lemma expiry_run_app ticks ticks' w :
  Expiry.run (ticks ++ ticks') w = Expiry.run ticks' (Expiry.run ticks w).
Proof. apply foldl_app. Qed.

(** With no timer pending the loop has stopped. *)
Lemma expiry_run_idle ticks w :
  Expiry.timers w = [] → Expiry.run ticks w = w.
Proof.
  intros Hidle. induction ticks as [|t ticks IH]; [reflexivity|].
  rewrite expiry_run_cons. unfold Expiry.fire. by rewrite Hidle.
Qed.

End ExpiryLoop.

(** ** The polling loop of the dialog without expiry tracking *)

Section PlainLoop.
Import Js DialogTypes.

Implicit Types (w : Plain.World) (args : PollArgs).
Implicit Types (e : Thrown) (tm : Plain.Timer).

Lemma plain_poll_cases args r now_done w :
  let w' := Plain.pollForToken args r now_done w in
  Plain.timers w' = Plain.timers w
  ∨ ∃ tm,
      Plain.timers w' = tm :: Plain.timers w
      ∧ Plain.ui w' = Plain.ui w
      ∧ Plain.settings w' = Plain.settings w
      ∧ Plain.toasts w' = Plain.toasts w
      ∧ pa_deviceCode (Plain.poll tm) = pa_deviceCode args
      ∧ pa_codeVerifier (Plain.poll tm) = pa_codeVerifier args
      ∧ Plain.delay tm = pa_interval (Plain.poll tm) * 1000
      ∧ (pa_interval (Plain.poll tm) = pa_interval args
         ∨ pa_interval (Plain.poll tm) = pa_interval args + 5).
Proof.
  unfold Plain.pollForToken.
  destruct r as [result|e]; [by left|].
  unfold Plain.on_poll_error.
  destruct (Plain.nullish e); [by left|].
  repeat (destruct (strict_eq_str _ _);
          [first [ by left | right; eexists; by cbn; eauto 12 ] |]).
  by left.
Qed.

(** Every call sends one request, with the codes it was given. *)
Lemma plain_poll_requests args r now_done w :
  Plain.token_requests (Plain.pollForToken args r now_done w)
  = params_of args :: Plain.token_requests w.
Proof.
  unfold Plain.pollForToken.
  destruct r as [result|e]; [done|].
  unfold Plain.on_poll_error.
  destruct (Plain.nullish e); [done|].
  by repeat (destruct (strict_eq_str _ _); [done|]).
Qed.

Lemma plain_poll_rejected args e now_done w :
  let w' := Plain.pollForToken args (Throw e) now_done w in
  Plain.settings w' = Plain.settings w
  ∧ Plain.toasts w' = Plain.toasts w
  ∧ (Plain.step (Plain.ui w') = Plain.step (Plain.ui w)
     ∨ Plain.step (Plain.ui w') = step_error).
Proof.
  unfold Plain.pollForToken, Plain.on_poll_error.
  destruct (Plain.nullish e); [by auto|].
  by repeat (destruct (strict_eq_str _ _); [by auto|]); auto.
Qed.

Lemma plain_run_cons t ticks w :
  Plain.run (t :: ticks) w = Plain.run ticks (Plain.fire t w).
Proof. reflexivity. Qed.

Lemma plain_run_app ticks ticks' w :
  Plain.run (ticks ++ ticks') w = Plain.run ticks' (Plain.run ticks w).
Proof. apply foldl_app. Qed.

Lemma plain_run_idle ticks w :
  Plain.timers w = [] → Plain.run ticks w = w.
Proof.
  intros Hidle. induction ticks as [|t ticks IH]; [reflexivity|].
  rewrite plain_run_cons. unfold Plain.fire. by rewrite Hidle.
Qed.

End PlainLoop.

(** ** One poll *)

Section OnePoll.
Import Js DialogTypes.

(** C6. A poll answered 'authorization_pending' before the expiry the call
    reads leaves the component state as it is (the step stays 'polling') and
    schedules the next call after [interval * 1000] ms with the same device
    code, code verifier and interval; nothing is stored. In the dialog
    without expiry tracking the same holds of every such poll. *)
Theorem authorization_pending_repolls_unchanged :
  (∀ (render : Expiry.Ui) (args : PollArgs) (now : Z)
     (r : Completion QwenTokenResponse) (now_done : Z) (w : Expiry.World),
     (now ≤ Expiry.deviceCodeExpiry render)%Z →
     answers "authorization_pending" r →
     Expiry.step (Expiry.ui w) = step_polling →
     let w' := Expiry.pollForToken render args now r now_done w in
     Expiry.step (Expiry.ui w') = step_polling
     ∧ Expiry.ui w' = Expiry.ui w
     ∧ Expiry.timers w'
       = {| Expiry.delay := pa_interval args * 1000;
            Expiry.poll := args;
            Expiry.closure := render |} :: Expiry.timers w
     ∧ Expiry.settings w' = Expiry.settings w
     ∧ Expiry.token_requests w' = params_of args :: Expiry.token_requests w)
  ∧ (∀ (args : PollArgs) (r : Completion QwenTokenResponse) (now_done : Z)
       (w : Plain.World),
       answers "authorization_pending" r →
       Plain.step (Plain.ui w) = step_polling →
       let w' := Plain.pollForToken args r now_done w in
       Plain.step (Plain.ui w') = step_polling
       ∧ Plain.ui w' = Plain.ui w
       ∧ Plain.timers w'
         = {| Plain.delay := pa_interval args * 1000;
              Plain.poll := args |} :: Plain.timers w
       ∧ Plain.settings w' = Plain.settings w
       ∧ Plain.token_requests w' = params_of args :: Plain.token_requests w).
Proof.
  split.
  - intros render args now r now_done w Hnow (e & -> & He) Hstep.
    unfold Expiry.pollForToken, Expiry.on_poll_error.
    rewrite (gtb_false_of_le _ _ Hnow).
    rewrite He. cbn. done.
  - intros args r now_done w (e & -> & He) Hstep.
    unfold Plain.pollForToken, Plain.on_poll_error.
    rewrite (error_code_not_nullish e _ He), He. cbn. done.
Qed.

(** In the dialog with expiry tracking a poll that was sent and failed with a
    transient error is repeated after the current interval, with the same
    arguments, and changes nothing else; and when a failed poll moves the
    dialog from 'polling' to 'error', the caught value is not transient and
    its code is neither 'authorization_pending' nor 'slow_down'. *)
Lemma expiry_transient_error_repolls
    (render : Expiry.Ui) (args : PollArgs) (now : Z) (e : Thrown)
    (now_done : Z) (w : Expiry.World) :
  (now ≤ Expiry.deviceCodeExpiry render)%Z →
  Expiry.step (Expiry.ui w) = step_polling →
  let w' := Expiry.pollForToken render args now (Throw e) now_done w in
  (Expiry.transient e →
     Expiry.ui w' = Expiry.ui w
     ∧ Expiry.timers w'
       = {| Expiry.delay := pa_interval args * 1000;
            Expiry.poll := args;
            Expiry.closure := render |} :: Expiry.timers w
     ∧ Expiry.settings w' = Expiry.settings w)
  ∧ (Expiry.step (Expiry.ui w') = step_error →
       ¬ Expiry.transient e
       ∧ prop e "error" ≠ JStr "authorization_pending"
       ∧ prop e "error" ≠ JStr "slow_down").
Proof.
  intros Hnow Hstep.
  unfold Expiry.pollForToken, Expiry.on_poll_error, Expiry.transient.
  rewrite (gtb_false_of_le _ _ Hnow).
  split.
  - intros [Hcode Hnet]. rewrite Hcode, Hnet. cbn. done.
  - destruct (strict_eq_str _ "authorization_pending") eqn:Hp.
    { cbn. rewrite Hstep. discriminate. }
    destruct (strict_eq_str _ "slow_down") eqn:Hs.
    { cbn. rewrite Hstep. discriminate. }
    apply strict_eq_str_false in Hp, Hs.
    destruct (strict_eq_str _ "access_denied") eqn:Hd.
    { apply strict_eq_str_true in Hd. intros _. split_and!; try done.
      intros [Hcode _]. congruence. }
    destruct (strict_eq_str _ "expired_token") eqn:Hx.
    { apply strict_eq_str_true in Hx. intros _. split_and!; try done.
      intros [Hcode _]. congruence. }
    destruct (Expiry.is_network_error e) as [[]|] eqn:Hnet.
    + cbn. rewrite Hstep. discriminate.
    + intros _. split_and!; try done. intros [_ ?]. congruence.
    + cbn. rewrite Hstep. discriminate.
Qed.

(** A transient error is an object: it is neither null nor undefined. *)
Lemma transient_not_nullish (e : Thrown) :
  Expiry.transient e → Plain.nullish e = false.
Proof.
  intros [_ Hnet]. destruct e as [err|[]]; try done; discriminate Hnet.
Qed.

(** The dialog without expiry tracking stops on every caught value, null and
    undefined apart, whose code is neither of the two it knows. *)
Lemma plain_other_error_is_terminal (args : PollArgs) (e : Thrown)
    (now_done : Z) (w : Plain.World) :
  Plain.nullish e = false →
  prop e "error" ≠ JStr "authorization_pending" →
  prop e "error" ≠ JStr "slow_down" →
  let w' := Plain.pollForToken args (Throw e) now_done w in
  Plain.step (Plain.ui w') = step_error
  ∧ Plain.timers w' = Plain.timers w
  ∧ Plain.settings w' = Plain.settings w.
Proof.
  intros Hnull Hp%strict_eq_str_false Hs%strict_eq_str_false.
  unfold Plain.pollForToken, Plain.on_poll_error.
  by rewrite Hnull, Hp, Hs.
Qed.

(** C3, as amended. In the dialog with expiry tracking a poll that was sent
    and failed with a transient error (no OAuth error code, and recognised by
    the retry test) is repeated after the current interval with the same
    arguments and enters no terminal state, and only caught values that are
    not transient, not 'authorization_pending' and not 'slow_down' move the
    dialog from 'polling' to 'error'. The dialog without expiry tracking has
    no retry test: there a transient error, like every caught value other
    than null and undefined whose code is neither 'authorization_pending'
    nor 'slow_down', moves the dialog to 'error' and schedules nothing; a
    code of one of the two never does. *)
Theorem transient_error_repolls_only_with_the_retry_test :
  (∀ (render : Expiry.Ui) (args : PollArgs) (now : Z) (e : Thrown)
     (now_done : Z) (w : Expiry.World),
     (now ≤ Expiry.deviceCodeExpiry render)%Z →
     Expiry.step (Expiry.ui w) = step_polling →
     let w' := Expiry.pollForToken render args now (Throw e) now_done w in
     (Expiry.transient e →
        Expiry.ui w' = Expiry.ui w
        ∧ Expiry.timers w'
          = {| Expiry.delay := pa_interval args * 1000;
               Expiry.poll := args;
               Expiry.closure := render |} :: Expiry.timers w
        ∧ Expiry.settings w' = Expiry.settings w)
     ∧ (Expiry.step (Expiry.ui w') = step_error →
          ¬ Expiry.transient e
          ∧ prop e "error" ≠ JStr "authorization_pending"
          ∧ prop e "error" ≠ JStr "slow_down"))
  ∧ (∀ (args : PollArgs) (e : Thrown) (now_done : Z) (w : Plain.World),
       let w' := Plain.pollForToken args (Throw e) now_done w in
       (Expiry.transient e →
          Plain.step (Plain.ui w') = step_error
          ∧ Plain.timers w' = Plain.timers w)
       ∧ (Plain.nullish e = false →
          prop e "error" ≠ JStr "authorization_pending" →
          prop e "error" ≠ JStr "slow_down" →
          Plain.step (Plain.ui w') = step_error
          ∧ Plain.timers w' = Plain.timers w)
       ∧ (Plain.step (Plain.ui w) = step_polling →
          Plain.step (Plain.ui w') = step_error →
          prop e "error" ≠ JStr "authorization_pending"
          ∧ prop e "error" ≠ JStr "slow_down")).
Proof.
  split.
  - intros render args now e now_done w Hnow Hstep.
    by apply expiry_transient_error_repolls.
  - intros args e now_done w. cbn zeta. split_and!.
    + intros Ht. pose proof (transient_not_nullish e Ht) as Hnull.
      destruct Ht as [Hcode _].
      destruct (plain_other_error_is_terminal args e now_done w Hnull)
        as (H1 & H2 & _); [congruence..|done].
    + intros Hnull Hp Hs.
      by destruct (plain_other_error_is_terminal args e now_done w Hnull Hp Hs)
        as (H1 & H2 & _).
    + intros Hstep. unfold Plain.pollForToken, Plain.on_poll_error.
      destruct (Plain.nullish e).
      { cbn. rewrite Hstep. discriminate. }
      destruct (strict_eq_str _ "authorization_pending") eqn:Hp.
      { cbn. rewrite Hstep. discriminate. }
      destruct (strict_eq_str _ "slow_down") eqn:Hs.
      { cbn. rewrite Hstep. discriminate. }
      intros _. by apply strict_eq_str_false in Hp, Hs.
Qed.


End OnePoll.

(** ** A successful poll *)

Section Success.
Import Js DialogTypes.

Lemma str_or_empty (o : option string) : str_or o "" = default "" o.
Proof.
  destruct o as [x|]; [|reflexivity]. cbn.
  destruct (String.eqb_spec x ""); by subst.
Qed.

Lemma str_or_given (u d : string) : u ≠ "" → str_or (Some u) d = u.
Proof.
  intros Hu. cbn. by destruct (String.eqb_spec u "").
Qed.

(** C8. A poll whose token call resolves moves the dialog to 'success',
    schedules nothing, and hands exactly one update to [updateSettings]: the
    access token, the refresh token or the empty string, the time at which
    the call resolved plus [expires_in * 1000], and the resource URL or the
    DashScope URL. The credential goes nowhere else. This holds in both
    dialogs (the one with expiry tracking wraps the two tokens in
    [{ value }]). *)
Theorem token_success_hands_over_credential :
  (∀ (render : Expiry.Ui) (args : PollArgs) (now : Z)
     (result : QwenTokenResponse) (now_done : Z) (w : Expiry.World),
     (now ≤ Expiry.deviceCodeExpiry render)%Z →
     let w' := Expiry.pollForToken render args now (Return result) now_done w
     in
     Expiry.step (Expiry.ui w') = step_success
     ∧ Expiry.timers w' = Expiry.timers w
     ∧ ∃ s,
         Expiry.settings w' = s :: Expiry.settings w
         ∧ Expiry.value (Expiry.qwenAccessToken s) = access_token result
         ∧ Expiry.value (Expiry.qwenRefreshToken s)
           = default "" (refresh_token result)
         ∧ Expiry.qwenTokenExpiry s = now_done + expires_in result * 1000
         ∧ Expiry.qwenResourceUrl s
           = str_or (resource_url result) DASHSCOPE_URL
         ∧ (resource_url result = None →
              Expiry.qwenResourceUrl s = DASHSCOPE_URL))
  ∧ (∀ (args : PollArgs) (result : QwenTokenResponse) (now_done : Z)
       (w : Plain.World),
       let w' := Plain.pollForToken args (Return result) now_done w in
       Plain.step (Plain.ui w') = step_success
       ∧ Plain.timers w' = Plain.timers w
       ∧ ∃ s,
           Plain.settings w' = s :: Plain.settings w
           ∧ Plain.qwenAccessToken s = access_token result
           ∧ Plain.qwenRefreshToken s = default "" (refresh_token result)
           ∧ Plain.qwenTokenExpiry s = now_done + expires_in result * 1000
           ∧ Plain.qwenResourceUrl s
             = str_or (resource_url result) DASHSCOPE_URL
           ∧ (resource_url result = None →
                Plain.qwenResourceUrl s = DASHSCOPE_URL)).
Proof.
  split.
  - intros render args now result now_done w Hnow.
    unfold Expiry.pollForToken. rewrite (gtb_false_of_le _ _ Hnow).
    cbn. split_and!; [done..|].
    eexists. split; [reflexivity|]. cbn.
    split_and!; [done|apply str_or_empty|done|done|by intros ->].
  - intros args result now_done w.
    unfold Plain.pollForToken. cbn. split_and!; [done..|].
    eexists. split; [reflexivity|]. cbn.
    split_and!; [done|apply str_or_empty|done|done|by intros ->].
Qed.

End Success.

(** ** Runs of the polling loop *)

Section Runs.
Import Js DialogTypes.

Lemma expiry_fire_one (t : Expiry.Tick) (w : Expiry.World) tm rest :
  Expiry.timers w = tm :: rest →
  Expiry.fire t w
  = Expiry.pollForToken (Expiry.closure tm) (Expiry.poll tm) (Expiry.now t)
      (Expiry.response t) (Expiry.now_done t) (Expiry.with_timers rest w).
Proof.
  intros H. unfold Expiry.fire. by rewrite H.
Qed.

Lemma plain_fire_one (t : Plain.Tick) (w : Plain.World) tm rest :
  Plain.timers w = tm :: rest →
  Plain.fire t w
  = Plain.pollForToken (Plain.poll tm) (Plain.response t) (Plain.now_done t)
      (Plain.with_timers rest w).
Proof.
  intros H. unfold Plain.fire. by rewrite H.
Qed.

(** While a timer is still pending after some wake-ups, every one of them
    was answered by a re-poll: the component state, the settings and the
    codes are those the loop started with, and the interval has not gone
    down. *)
Lemma expiry_run_continuing (ticks : list Expiry.Tick) :
  ∀ (w : Expiry.World) (tm : Expiry.Timer),
    Expiry.timers w = [tm] →
    Expiry.timers (Expiry.run ticks w) ≠ [] →
    (∃ tm',
       Expiry.timers (Expiry.run ticks w) = [tm']
       ∧ Expiry.closure tm' = Expiry.closure tm
       ∧ pa_deviceCode (Expiry.poll tm') = pa_deviceCode (Expiry.poll tm)
       ∧ pa_codeVerifier (Expiry.poll tm') = pa_codeVerifier (Expiry.poll tm)
       ∧ (pa_interval (Expiry.poll tm) ≤ pa_interval (Expiry.poll tm'))%Z)
    ∧ Expiry.settings (Expiry.run ticks w) = Expiry.settings w
    ∧ ∀ k, Expiry.ui (Expiry.run (take k ticks) w) = Expiry.ui w.
Proof.
  induction ticks as [|t ticks IH]; intros w tm Hw Hrun.
  - split_and!; [|done|by intros []].
    exists tm. split_and!; (done || lia).
  - rewrite expiry_run_cons in Hrun |- *.
    rewrite (expiry_fire_one t w tm [] Hw) in Hrun |- *.
    pose proof (expiry_poll_cases (Expiry.closure tm) (Expiry.poll tm)
                  (Expiry.now t) (Expiry.response t) (Expiry.now_done t)
                  (Expiry.with_timers [] w)) as Hcases.
    cbn zeta in Hcases.
    destruct Hcases as [Hstop|(tm1 & Htm1 & Hui & Hset & _ & Hcl & Hdc & Hcv & _ & Hiv)].
    { rewrite expiry_run_idle in Hrun by exact Hstop. by rewrite Hstop in Hrun. }
    destruct (IH _ tm1 Htm1 Hrun) as ((tm' & Ht' & Hcl' & Hdc' & Hcv' & Hiv') & Hset' & Hui').
    split_and!.
    + exists tm'. split_and!; [done|congruence|congruence|congruence|lia].
    + by rewrite Hset', Hset.
    + intros [|k]; [done|].
      cbn [take]. rewrite expiry_run_cons, (expiry_fire_one t w tm [] Hw).
      by rewrite Hui', Hui.
Qed.

Lemma plain_run_continuing (ticks : list Plain.Tick) :
  ∀ (w : Plain.World) (tm : Plain.Timer),
    Plain.timers w = [tm] →
    Plain.timers (Plain.run ticks w) ≠ [] →
    (∃ tm',
       Plain.timers (Plain.run ticks w) = [tm']
       ∧ pa_deviceCode (Plain.poll tm') = pa_deviceCode (Plain.poll tm)
       ∧ pa_codeVerifier (Plain.poll tm') = pa_codeVerifier (Plain.poll tm)
       ∧ (pa_interval (Plain.poll tm) ≤ pa_interval (Plain.poll tm'))%Z)
    ∧ Plain.settings (Plain.run ticks w) = Plain.settings w
    ∧ ∀ k, Plain.ui (Plain.run (take k ticks) w) = Plain.ui w.
Proof.
  induction ticks as [|t ticks IH]; intros w tm Hw Hrun.
  - split_and!; [|done|by intros []].
    exists tm. split_and!; (done || lia).
  - rewrite plain_run_cons in Hrun |- *.
    rewrite (plain_fire_one t w tm [] Hw) in Hrun |- *.
    pose proof (plain_poll_cases (Plain.poll tm) (Plain.response t)
                  (Plain.now_done t) (Plain.with_timers [] w)) as Hcases.
    cbn zeta in Hcases.
    destruct Hcases as [Hstop|(tm1 & Htm1 & Hui & Hset & _ & Hdc & Hcv & _ & Hiv)].
    { rewrite plain_run_idle in Hrun by exact Hstop. by rewrite Hstop in Hrun. }
    destruct (IH _ tm1 Htm1 Hrun) as ((tm' & Ht' & Hdc' & Hcv' & Hiv') & Hset' & Hui').
    split_and!.
    + exists tm'. split_and!; [done|congruence|congruence|lia].
    + by rewrite Hset', Hset.
    + intros [|k]; [done|].
      cbn [take]. rewrite plain_run_cons, (plain_fire_one t w tm [] Hw).
      by rewrite Hui', Hui.
Qed.

(** A poll answered 'access_denied' stops the loop in the 'error' step,
    whether or not the expiry test let the request out. *)
Lemma expiry_poll_denied render args now r now_done (w : Expiry.World) :
  answers "access_denied" r →
  let w' := Expiry.pollForToken render args now r now_done w in
  Expiry.step (Expiry.ui w') = step_error
  ∧ Expiry.timers w' = Expiry.timers w
  ∧ Expiry.settings w' = Expiry.settings w
  ∧ Expiry.toasts w' = Expiry.toasts w
  ∧ ((now ≤ Expiry.deviceCodeExpiry render)%Z →
       Expiry.error (Expiry.ui w') = JStr Expiry.denied_message).
Proof.
  intros (e & -> & He). unfold Expiry.pollForToken.
  destruct (Z.gtb_spec now (Expiry.deviceCodeExpiry render)).
  { cbn. split_and!; (done || lia). }
  unfold Expiry.on_poll_error. rewrite He. cbn. done.
Qed.

Lemma plain_poll_denied args r now_done (w : Plain.World) :
  answers "access_denied" r →
  let w' := Plain.pollForToken args r now_done w in
  Plain.step (Plain.ui w') = step_error
  ∧ Plain.timers w' = Plain.timers w
  ∧ Plain.settings w' = Plain.settings w
  ∧ Plain.toasts w' = Plain.toasts w.
Proof.
  intros (e & -> & He). unfold Plain.pollForToken, Plain.on_poll_error.
  rewrite (error_code_not_nullish e _ He), He. cbn. done.
Qed.

(** C4. Take a dialog in the 'polling' step with its one timer pending, and
    any sequence of wake-ups in which a poll that is still due is answered
    'access_denied'. The run ends in the 'error' step with no timer pending
    and the settings untouched (no credential stored, no success toast), and
    at no point of the run was the step 'success'. This holds in both
    dialogs; in the one with expiry tracking the message shown is the denial
    message when the denied request was sent before the expiry it reads. *)
Theorem access_denied_ends_in_terminal_failure :
  (∀ (w : Expiry.World) (tm : Expiry.Timer)
     (pre : list Expiry.Tick) (d : Expiry.Tick) (post : list Expiry.Tick),
     Expiry.step (Expiry.ui w) = step_polling →
     Expiry.timers w = [tm] →
     Expiry.timers (Expiry.run pre w) ≠ [] →
     answers "access_denied" (Expiry.response d) →
     let final := Expiry.run (pre ++ d :: post) w in
     Expiry.step (Expiry.ui final) = step_error
     ∧ Expiry.timers final = []
     ∧ Expiry.settings final = Expiry.settings w
     ∧ ((Expiry.now d ≤ Expiry.deviceCodeExpiry (Expiry.closure tm))%Z →
          Expiry.error (Expiry.ui final) = JStr Expiry.denied_message)
     ∧ ∀ k, Expiry.step (Expiry.ui (Expiry.run (take k (pre ++ d :: post)) w))
            ≠ step_success)
  ∧ (∀ (w : Plain.World) (tm : Plain.Timer)
       (pre : list Plain.Tick) (d : Plain.Tick) (post : list Plain.Tick),
       Plain.step (Plain.ui w) = step_polling →
       Plain.timers w = [tm] →
       Plain.timers (Plain.run pre w) ≠ [] →
       answers "access_denied" (Plain.response d) →
       let final := Plain.run (pre ++ d :: post) w in
       Plain.step (Plain.ui final) = step_error
       ∧ Plain.timers final = []
       ∧ Plain.settings final = Plain.settings w
       ∧ ∀ k, Plain.step (Plain.ui (Plain.run (take k (pre ++ d :: post)) w))
              ≠ step_success).
Proof.
  split.
  - intros w tm pre d post Hstep Hw Hpre Hd.
    destruct (expiry_run_continuing pre w tm Hw Hpre)
      as ((tm' & Ht' & Hcl & _) & Hset & Hui).
    destruct (expiry_poll_denied (Expiry.closure tm') (Expiry.poll tm')
                (Expiry.now d) (Expiry.response d) (Expiry.now_done d)
                (Expiry.with_timers [] (Expiry.run pre w)) Hd)
      as (Hs & Ht & Hst & _ & Hmsg).
    rewrite <- (expiry_fire_one d _ tm' [] Ht') in Hs, Ht, Hst, Hmsg.
    cbn in Ht, Hst.
    assert (Htail : ∀ l, Expiry.run (pre ++ d :: l) w
                         = Expiry.fire d (Expiry.run pre w)).
    { intros l. rewrite expiry_run_app, expiry_run_cons.
      by apply expiry_run_idle. }
    cbn zeta. rewrite Htail. split_and!; [done|done|congruence| |].
    + intros Hnow. apply Hmsg. by rewrite Hcl.
    + intros k. destruct (decide (k ≤ length pre)%nat) as [Hk|Hk].
      * rewrite take_app_le by done. rewrite (Hui k), Hstep. done.
      * rewrite take_app_ge by lia.
        destruct (k - length pre)%nat as [|k'] eqn:Hkk; [lia|].
        cbn [take]. rewrite Htail, Hs. done.
  - intros w tm pre d post Hstep Hw Hpre Hd.
    destruct (plain_run_continuing pre w tm Hw Hpre)
      as ((tm' & Ht' & _) & Hset & Hui).
    destruct (plain_poll_denied (Plain.poll tm') (Plain.response d)
                (Plain.now_done d)
                (Plain.with_timers [] (Plain.run pre w)) Hd)
      as (Hs & Ht & Hst & _).
    rewrite <- (plain_fire_one d _ tm' [] Ht') in Hs, Ht, Hst.
    cbn in Ht, Hst.
    assert (Htail : ∀ l, Plain.run (pre ++ d :: l) w
                         = Plain.fire d (Plain.run pre w)).
    { intros l. rewrite plain_run_app, plain_run_cons.
      by apply plain_run_idle. }
    cbn zeta. rewrite Htail. split_and!; [done|done|congruence|].
    intros k. destruct (decide (k ≤ length pre)%nat) as [Hk|Hk].
    + rewrite take_app_le by done. rewrite (Hui k), Hstep. done.
    + rewrite take_app_ge by lia.
      destruct (k - length pre)%nat as [|k'] eqn:Hkk; [lia|].
      cbn [take]. rewrite Htail, Hs. done.
Qed.

End Runs.

(** ** The verifier from the device-code result to the token polls *)

Section Verifier.
Import Js DialogTypes QwenOAuthHandlers.
#[local] Open Scope list_scope.





Variable sha256 : list ascii → list ascii.


End Verifier.

(** ** The expiry test *)

Section ExpiryTest.
Import Js DialogTypes.

(** Past the expiry that the call reads, [pollForToken] sends nothing and
    stops the flow with the time-out message, whatever the token endpoint
    would have answered. *)
Lemma poll_past_read_expiry (render : Expiry.Ui) (args : PollArgs) (now : Z)
    (r : Completion QwenTokenResponse) (now_done : Z) (w : Expiry.World) :
  (Expiry.deviceCodeExpiry render < now)%Z →
  let w' := Expiry.pollForToken render args now r now_done w in
  Expiry.step (Expiry.ui w') = step_error
  ∧ Expiry.error (Expiry.ui w') = JStr Expiry.timed_out_message
  ∧ Expiry.timers w' = Expiry.timers w
  ∧ Expiry.token_requests w' = Expiry.token_requests w
  ∧ Expiry.settings w' = Expiry.settings w.
Proof.
  intros Hnow. unfold Expiry.pollForToken.
  by rewrite (gtb_true_of_gt _ _ Hnow).
Qed.

(** [startOAuthFlow] stores the advertised expiry for the next render, and
    the call it schedules reads the expiry of the render it was started
    from. *)
Lemma flow_reads_expiry_of_starting_render
    (r : DeviceCodeResult) (now_issued now_polling : Z) (w : Expiry.World) :
  let w' := Expiry.startOAuthFlow (Return r) now_issued (Return ())
              now_polling w in
  Expiry.deviceCodeExpiry (Expiry.ui w') = now_issued + dc_expires_in r * 1000
  ∧ Expiry.token_requests w' = Expiry.token_requests w
  ∧ ∃ tm,
      Expiry.timers w' = tm :: Expiry.timers w
      ∧ Expiry.delay tm = 3000
      ∧ Expiry.deviceCodeExpiry (Expiry.closure tm)
        = Expiry.deviceCodeExpiry (Expiry.ui w).
Proof.
  cbn. split_and!; [done..|]. eexists. by split_and!.
Qed.

(** The first flow of a freshly opened dialog reads the initial expiry 0: its
    first poll, at any positive time, times out without a request. *)
Lemma first_flow_times_out
    (r : DeviceCodeResult) (now_issued now_polling : Z) (t : Expiry.Tick) :
  (0 < Expiry.now t)%Z →
  let w' := Expiry.run [t]
              (Expiry.startOAuthFlow (Return r) now_issued (Return ())
                 now_polling Expiry.initial_world) in
  Expiry.step (Expiry.ui w') = step_error
  ∧ Expiry.error (Expiry.ui w') = JStr Expiry.timed_out_message
  ∧ Expiry.token_requests w' = []
  ∧ Expiry.timers w' = [].
Proof.
  intros Hnow.
  destruct (flow_reads_expiry_of_starting_render r now_issued now_polling
              Expiry.initial_world) as (_ & Hreq & tm & Htm & _ & Hcl).
  cbn zeta in *.
  set (w1 := Expiry.startOAuthFlow _ _ _ _ _) in *.
  change (Expiry.run [t] w1) with (Expiry.fire t w1).
  change (Expiry.timers Expiry.initial_world) with (@nil Expiry.Timer) in Htm.
  change (Expiry.deviceCodeExpiry (Expiry.ui Expiry.initial_world))
    with 0%Z in Hcl.
  rewrite (expiry_fire_one t w1 tm [] Htm).
  destruct (poll_past_read_expiry (Expiry.closure tm) (Expiry.poll tm)
              (Expiry.now t) (Expiry.response t) (Expiry.now_done t)
              (Expiry.with_timers [] w1)) as (Hs & He & Ht & Hr & _).
  { by rewrite Hcl. }
  split_and!; [done|done| |done].
  rewrite Hr. exact Hreq.
Qed.

(** The dialog without expiry tracking treats a network error as any other
    error: the flow stops in the 'error' step. *)
Lemma plain_network_error_is_terminal (args : PollArgs) (err : JsError)
    (now_done : Z) (w : Plain.World) :
  let w' := Plain.pollForToken args (Throw (ThrownError err)) now_done w in
  Plain.step (Plain.ui w') = step_error ∧ Plain.timers w' = Plain.timers w.
Proof. done. Qed.

(** C2. The second flow's device code expires at 70000 ms, and at 100000 ms
    the poll of that flow still sends its token request and schedules the
    next poll: the call reads the expiry 601000 that the first flow left in
    the render the second flow was started from. *)
Theorem stale_expiry_keeps_polling :
  let w := Expiry.run [ {| Expiry.now := 100000;
                           Expiry.response := Throw Scenarios.pending;
                           Expiry.now_done := 100100 |} ]
             Scenarios.second_flow in
  Expiry.deviceCodeExpiry (Expiry.ui Scenarios.second_flow)
  = 10000 + 60 * 1000
  ∧ (10000 + 60 * 1000 < 100000)%Z
  ∧ Expiry.step (Expiry.ui w) = step_polling
  ∧ Expiry.token_requests w
    = [ {| QwenOAuthHandlers.deviceCode := "dc-2";
           QwenOAuthHandlers.codeVerifier := "v-2" |} ]
  ∧ (∃ tm, Expiry.timers w = [ tm ]
           ∧ Expiry.delay tm = 5000
           ∧ Expiry.deviceCodeExpiry (Expiry.closure tm) = 601000).
Proof.
  cbn zeta. split_and!; [by vm_compute|lia|by vm_compute|by vm_compute|].
  eexists. split_and!; by vm_compute.
Qed.

End ExpiryTest.

(** ** Path validation *)

Section Paths.
Import ActionValidator.
#[local] Open Scope list_scope.

Lemma is_prefix_app (l l' : list string) : is_prefix l (l ++ l') = true.
Proof.
  induction l as [|x l IH]; [reflexivity|].
  cbn. by rewrite String.eqb_refl, IH.
Qed.

(** Without a `..` segment a walk only goes down. *)
Lemma walk_extends (segs : list string) :
  ∀ dir, existsb (String.eqb "..") segs = false →
         ∃ below, walk dir segs = dir ++ below.
Proof.
  induction segs as [|s segs IH]; intros dir Hno.
  { exists []. by rewrite app_nil_r. }
  change (String.eqb ".." s || existsb (String.eqb "..") segs = false)
    in Hno.
  apply orb_false_elim in Hno as [Hs Hno].
  cbn [walk]. destruct (_ || _); [by apply IH|].
  rewrite String.eqb_sym, Hs.
  destruct (IH (dir ++ [s]) Hno) as (below & ->).
  exists (s :: below). by rewrite <- app_assoc.
Qed.

(** A relative path with no `..` segment stays inside the root: what is left
    for check (c) to reject is `..` and absolute paths outside the root. *)
Lemma relative_path_inside (root p : string) :
  is_absolute p = false → has_dotdot p = false → inside root p = true.
Proof.
  intros Hrel Hno. unfold inside, resolve. rewrite Hrel.
  destruct (walk_extends (segments p) (walk [] (segments root)) Hno)
    as (below & ->).
  apply is_prefix_app.
Qed.

Lemma empty_path_not_strictly_inside (root : string) :
  strictly_inside root "" = false.
Proof.
  unfold strictly_inside, inside, resolve.
  change (is_absolute "") with false.
  change (walk ?d (segments "")) with d.
  rewrite Nat.ltb_irrefl. apply andb_false_r.
Qed.

Variable root : string.
Variable identifier_ok : string → bool.

(** C1, as amended. A path-bearing action is rejected when its path has a
    `..` segment or resolves outside the project root, and it is accepted
    when its path has no `..` segment and resolves strictly inside the
    root. *)
Theorem path_escape_rejected_inside_accepted
    (a : ActionNode) (p : string) :
  path_of a = Some p →
  (has_dotdot p = true ∨ escapes root p = true →
     rejected (validate root identifier_ok a))
  ∧ (has_dotdot p = false → strictly_inside root p = true →
       validate root identifier_ok a = inr a).
Proof.
  destruct a as [path content| |]; [|discriminate..].
  intros [= ->]. cbn [validate]. split.
  - intros Hbad. destruct (String.eqb p ""); [by eexists|].
    destruct Hbad as [-> | ->]; rewrite ?orb_true_r; by eexists.
  - intros Hno Hin. destruct (String.eqb_spec p "") as [->|_].
    { by rewrite empty_path_not_strictly_inside in Hin. }
    unfold strictly_inside in Hin. apply andb_prop in Hin as [Hin _].
    unfold escapes. by rewrite Hno, Hin.
Qed.

End Paths.

(** C1, as stated, fails: the path `src/../main.ts` resolves strictly inside
    the root `/project`, and the action is rejected for its `..` segment. *)
Lemma dotdot_inside_root_is_rejected :
  ActionValidator.strictly_inside "/project" "src/../main.ts" = true
  ∧ ¬ (ActionValidator.strictly_inside "/project" "src/../main.ts" = true →
       ActionValidator.validate "/project" (λ _, true)
         (ActionValidator.WriteFile "src/../main.ts" "export {}")
       = inr (ActionValidator.WriteFile "src/../main.ts" "export {}")).
Proof.
  split; [reflexivity|]. intros H. specialize (H eq_refl). discriminate H.
Qed.

(** ** The theorems at concrete runs *)

Section Instances.
Import Js DialogTypes Scenarios.

(** `src/main.ts` under `/project` is accepted. *)
Lemma path_inside_witness :
  ActionValidator.path_of (ActionValidator.WriteFile "src/main.ts" "export {}")
    = Some "src/main.ts"
  ∧ ActionValidator.validate "/project" (λ _, true)
      (ActionValidator.WriteFile "src/main.ts" "export {}")
    = inr (ActionValidator.WriteFile "src/main.ts" "export {}").
Proof.
  split; [reflexivity|].
  apply (path_escape_rejected_inside_accepted "/project" (λ _, true)
           (ActionValidator.WriteFile "src/main.ts" "export {}")
           "src/main.ts");
    reflexivity.
Defined.

(** A failed fetch is retried after five seconds by the dialog with expiry
    tracking, and stops the dialog without it. *)
Lemma transient_error_witness :
  Expiry.timers
    (Expiry.pollForToken polling_ui args 4000 (Throw fetch_failed) 4100
       polling_world)
  = [ {| Expiry.delay := 5 * 1000; Expiry.poll := args;
         Expiry.closure := polling_ui |}; polling_timer ]
  ∧ Plain.step
      (Plain.ui
         (Plain.pollForToken args (Throw fetch_failed) 4100
            plain_polling_world))
    = step_error.
Proof.
  destruct transient_error_repolls_only_with_the_retry_test as [HE HP].
  split.
  - apply (HE polling_ui args 4000 fetch_failed 4100 polling_world).
    + vm_compute. discriminate.
    + reflexivity.
    + split; reflexivity.
  - destruct (HP args fetch_failed 4100 plain_polling_world) as [Ht _].
    apply Ht. split; reflexivity.
Defined.

(** C3, as stated, fails on the dialog without expiry tracking: a failed
    fetch is a transient error (no OAuth error code, "fetch" in its
    message), and the poll that catches it moves the dialog from 'polling'
    to 'error' and schedules no other poll. *)
Lemma plain_transient_error_is_not_retried :
  let w' := Plain.pollForToken args (Throw fetch_failed) 4100
              plain_polling_world in
  Expiry.transient fetch_failed
  ∧ Plain.step (Plain.ui plain_polling_world) = step_polling
  ∧ Plain.step (Plain.ui w') = step_error
  ∧ ¬ (Plain.step (Plain.ui w') = step_polling
       ∧ Plain.timers w'
         = {| Plain.delay := pa_interval args * 1000; Plain.poll := args |}
           :: Plain.timers plain_polling_world).
Proof.
  cbn zeta. split_and!.
  - split; reflexivity.
  - reflexivity.
  - reflexivity.
  - intros [H _]. discriminate H.
Defined.

(** Five "still pending" answers and then "denied", in both dialogs. *)
Lemma five_pending_then_denied_witness :
  (let final :=
     Expiry.run (five_pending ++ [ tick_at 29000 (Throw denied) ])
       polling_world in
   Expiry.step (Expiry.ui final) = step_error
   ∧ Expiry.timers final = []
   ∧ Expiry.settings final = []
   ∧ ∀ k, Expiry.step
            (Expiry.ui
               (Expiry.run
                  (take k (five_pending ++ [ tick_at 29000 (Throw denied) ]))
                  polling_world))
          ≠ step_success)
  ∧ (let final :=
       Plain.run (plain_five_pending ++ [ plain_tick (Throw denied) ])
         plain_polling_world in
     Plain.step (Plain.ui final) = step_error
     ∧ Plain.timers final = []
     ∧ Plain.settings final = []).
Proof.
  destruct access_denied_ends_in_terminal_failure as [HE HP].
  split.
  - destruct (HE polling_world polling_timer five_pending
                (tick_at 29000 (Throw denied)) [])
      as (H1 & H2 & H3 & _ & H5).
    + reflexivity.
    + reflexivity.
    + vm_compute. discriminate.
    + exists denied. split; reflexivity.
    + cbn zeta. split_and!; assumption.
  - destruct (HP plain_polling_world plain_timer plain_five_pending
                (plain_tick (Throw denied)) [])
      as (H1 & H2 & H3 & _).
    + reflexivity.
    + reflexivity.
    + vm_compute. discriminate.
    + exists denied. split; reflexivity.
    + cbn zeta. split_and!; assumption.
Defined.


(** A "still pending" answer before the expiry. *)
Lemma authorization_pending_witness :
  Expiry.timers
    (Expiry.pollForToken polling_ui args 4000 (Throw pending) 4100
       polling_world)
  = [ {| Expiry.delay := 5 * 1000; Expiry.poll := args;
         Expiry.closure := polling_ui |}; polling_timer ].
Proof.
  destruct authorization_pending_repolls_unchanged as [HE _].
  apply (HE polling_ui args 4000 (Throw pending) 4100 polling_world).
  - vm_compute. discriminate.
  - exists pending. split; reflexivity.
  - reflexivity.
Defined.

(** A token answer before the expiry. *)
Lemma token_success_witness :
  Expiry.step
    (Expiry.ui
       (Expiry.pollForToken polling_ui args 4000 (Return token) 4100
          polling_world))
  = step_success.
Proof.
  destruct token_success_hands_over_credential as [HE _].
  apply (HE polling_ui args 4000 token 4100 polling_world).
  vm_compute. discriminate.
Defined.



(** A 400 answer with a JSON body is thrown as it is. *)
Lemma token_400_witness :
  QwenOAuthHandlers.token_handler (params_of args) pending_fetch = Throw pending.
Proof.
  destruct (token_handler_propagates_400_body (params_of args) pending_fetch)
    as [H _].
  apply H. eexists. split_and!; reflexivity.
Defined.

End Instances.

(** * Further properties of the code *)

(** ** The proof-key strings *)

Section PkceStrings.
Import QwenOAuthHandlers.

Lemma existsb_elem_of (c : ascii) (l : list ascii) :
  existsb (Ascii.eqb c) l = true → c ∈ l.
Proof.
  intros H. apply existsb_exists in H as (x & Hin & Heq).
  apply Ascii.eqb_eq in Heq as ->. by apply list_elem_of_In.
Qed.

Lemma digit_url_in_alphabet (x : sextet) :
  digit base64url_alphabet x ∈ list_ascii_of_string base64url_alphabet.
Proof.
  apply existsb_elem_of.
  destruct x as [[[[[b5 b4] b3] b2] b1] b0].
  destruct b5, b4, b3, b2, b1, b0; reflexivity.
Qed.

Lemma digits_url_in_alphabet (xs : list sextet) :
  Forall (λ c, c ∈ list_ascii_of_string base64url_alphabet)
    (digit base64url_alphabet <$> xs).
Proof.
  induction xs as [|x xs IH]; [constructor|].
  constructor; [apply digit_url_in_alphabet | exact IH].
Qed.

Lemma base64url_spec_in_alphabet (bytes : list ascii) :
  Forall (λ c, c ∈ list_ascii_of_string base64url_alphabet)
    (base64url_spec bytes).
Proof.
  induction bytes as [|a|a b|a b c rest IH] using list_ind3;
    cbn [base64url_spec].
  - constructor.
  - apply digits_url_in_alphabet.
  - apply digits_url_in_alphabet.
  - apply Forall_app. split; [apply digits_url_in_alphabet | exact IH].
Qed.

(** The digits of the alphabet are pairwise distinct. *)
Lemma digit_url_inj (x y : sextet) :
  digit base64url_alphabet x = digit base64url_alphabet y → x = y.
Proof.
  destruct x as [[[[[a5 a4] a3] a2] a1] a0], y as [[[[[b5 b4] b3] b2] b1] b0].
  destruct a5, a4, a3, a2, a1, a0, b5, b4, b3, b2, b1, b0;
    intros H; first [ reflexivity | vm_compute in H; discriminate H ].
Qed.

Lemma digits_url_inj (xs ys : list sextet) :
  digit base64url_alphabet <$> xs = digit base64url_alphabet <$> ys →
  xs = ys.
Proof.
  revert ys. induction xs as [|x xs IH]; intros [|y ys] H;
    try discriminate H; [reflexivity|].
  cbn [fmap list_fmap] in H. injection H as Hd Hrest.
  f_equal; [by apply digit_url_inj | by apply IH].
Qed.

Lemma sextets1_inj (a a' : ascii) : sextets1 a = sextets1 a' → a = a'.
Proof.
  destruct a, a'. cbn [sextets1]. intros H. by simplify_eq.
Qed.

Lemma sextets2_inj (a b a' b' : ascii) :
  sextets2 a b = sextets2 a' b' → a = a' ∧ b = b'.
Proof.
  destruct a, b, a', b'. cbn [sextets2]. intros H. by simplify_eq.
Qed.

Lemma sextets3_inj (a b c a' b' c' : ascii) :
  sextets3 a b c = sextets3 a' b' c' → a = a' ∧ b = b' ∧ c = c'.
Proof.
  destruct a, b, c, a', b', c'. cbn [sextets3]. intros H. by simplify_eq.
Qed.

Lemma sextets1_length (a : ascii) : length (sextets1 a) = 2%nat.
Proof. by destruct a. Qed.

Lemma sextets2_length (a b : ascii) : length (sextets2 a b) = 3%nat.
Proof. by destruct a, b. Qed.

Lemma sextets3_length (a b c : ascii) : length (sextets3 a b c) = 4%nat.
Proof. by destruct a, b, c. Qed.

(** The length of an encoding tells the length of what was encoded apart. *)
Lemma base64url_spec_length_cases (bytes : list ascii) :
  match bytes with
  | [] => length (base64url_spec bytes) = 0%nat
  | [_] => length (base64url_spec bytes) = 2%nat
  | [_; _] => length (base64url_spec bytes) = 3%nat
  | _ :: _ :: _ :: _ => (4 ≤ length (base64url_spec bytes))%nat
  end.
Proof.
  destruct bytes as [|a [|b [|c rest]]]; cbn [base64url_spec].
  - reflexivity.
  - by rewrite length_fmap, sextets1_length.
  - by rewrite length_fmap, sextets2_length.
  - rewrite length_app, length_fmap, sextets3_length. lia.
Qed.

(** Unpadded base64url loses nothing: equal encodings come from equal
    bytes. *)
Lemma base64url_spec_inj (xs : list ascii) :
  ∀ ys, base64url_spec xs = base64url_spec ys → xs = ys.
Proof.
  induction xs as [|a|a b|a b c rest IH] using list_ind3;
    intros [|a' [|b' [|c' rest']]] H;
    try reflexivity;
    try (apply (f_equal length) in H;
         match type of H with
         | length (base64url_spec ?l) = length (base64url_spec ?l') =>
             pose proof (base64url_spec_length_cases l);
             pose proof (base64url_spec_length_cases l')
         end;
         cbv beta iota in *; lia).
  - cbn [base64url_spec] in H.
    by apply digits_url_inj, sextets1_inj in H as ->.
  - cbn [base64url_spec] in H.
    by apply digits_url_inj, sextets2_inj in H as [-> ->].
  - cbn [base64url_spec] in H. apply app_inj_1 in H as [Hd Hrest].
    + apply digits_url_inj, sextets3_inj in Hd as (-> & -> & ->).
      by rewrite (IH _ Hrest).
    + by rewrite !length_fmap, !sextets3_length.
Qed.

Lemma string_of_list_ascii_inj (l l' : list ascii) :
  string_of_list_ascii l = string_of_list_ascii l' → l = l'.
Proof.
  intros H. apply (f_equal list_ascii_of_string) in H.
  by rewrite !list_ascii_of_string_of_list_ascii in H.
Qed.

Variable sha256 : list ascii → list ascii.

(** X1. The verifier and the challenge consist of characters of the
    base64url alphabet only (letters, digits, '-' and '_'): no '+', '/' or
    '=' is left, whatever the random bytes and the digest are. *)
Theorem pkce_strings_are_url_safe (array : list ascii) :
  let verifier := generateCodeVerifier array in
  Forall (λ c, c ∈ list_ascii_of_string base64url_alphabet)
    (list_ascii_of_string verifier)
  ∧ Forall (λ c, c ∈ list_ascii_of_string base64url_alphabet)
      (list_ascii_of_string (generateCodeChallenge sha256 verifier))
  ∧ Forall (λ c, c ≠ "+"%char ∧ c ≠ "/"%char ∧ c ≠ "="%char)
      (list_ascii_of_string verifier).
Proof.
  cbn zeta. unfold generateCodeVerifier, generateCodeChallenge.
  rewrite !btoa_urlsafe_spec, !list_ascii_of_string_of_list_ascii.
  split_and!; try apply base64url_spec_in_alphabet.
  eapply Forall_impl; [apply base64url_spec_in_alphabet|].
  intros c Hc. apply list_elem_of_In in Hc.
  split_and!; intros ->; vm_compute in Hc;
    repeat (destruct Hc as [Hc|Hc]; [discriminate Hc|]); exact Hc.
Qed.

(** X2. From the 32 random bytes the verifier has 43 characters, and so has
    the challenge when the digest has 32 bytes. *)
Theorem pkce_strings_have_43_characters (array : list ascii) :
  length array = 32%nat →
  length (sha256 (utf8_encode (generateCodeVerifier array))) = 32%nat →
  String.length (generateCodeVerifier array) = 43%nat
  ∧ String.length
      (generateCodeChallenge sha256 (generateCodeVerifier array)) = 43%nat.
Proof.
  intros Harray Hdigest. split.
  - by apply generateCodeVerifier_length.
  - by apply (generateCodeVerifier_length (sha256 _)).
Qed.

(** X3. Different random arrays give different verifiers: the encoding of
    the verifier loses none of the random bytes. *)
Theorem generateCodeVerifier_injective (array array' : list ascii) :
  generateCodeVerifier array = generateCodeVerifier array' →
  array = array'.
Proof.
  unfold generateCodeVerifier. rewrite !btoa_urlsafe_spec.
  intros H. by apply base64url_spec_inj, string_of_list_ascii_inj.
Qed.

End PkceStrings.

(** ** How the two handlers fail and succeed *)

Section HandlerOutcomes.
Import Js QwenOAuthHandlers.

Variable sha256 : list ascii → list ascii.

(** X4. The device-code handler never throws anything but an [Error] whose
    message starts with "Failed to get Qwen device code: "; what follows is
    the message of the failed fetch, or "Device code request failed:
    <status> <statusText>" for a status outside 200..299, or the message of
    the JSON parse error. In every other case it returns. *)
Theorem device_code_handler_failures
    (array : list ascii) (fetch : Request → FetchOutcome) :
  let request :=
    device_code_request
      (generateCodeChallenge sha256 (generateCodeVerifier array)) in
  (∃ result, device_code_handler sha256 array fetch = Return result)
  ∨ ∃ cause,
      device_code_handler sha256 array fetch
      = Throw (new_Error ("Failed to get Qwen device code: " ++ cause))
      ∧ ((∃ e, fetch request = FetchFailed e ∧ cause = message e)
         ∨ (∃ response,
              fetch request = Fetched response
              ∧ ¬ (200 ≤ status response ≤ 299)%Z
              ∧ cause = "Device code request failed: "
                        ++ pretty (status response) ++ " "
                        ++ statusText response)
         ∨ (∃ response e,
              fetch request = Fetched response
              ∧ (200 ≤ status response ≤ 299)%Z
              ∧ json response = inl e
              ∧ cause = message e)).
Proof.
  cbn zeta. unfold device_code_handler, device_code_try.
  destruct (fetch _) as [e|response] eqn:Hfetch.
  { right. exists (message e). split; [done|]. left. by exists e. }
  unfold ok.
  destruct (Z.leb_spec 200 (status response)) as [Hlo|Hlo];
    destruct (Z.leb_spec (status response) 299) as [Hhi|Hhi];
    cbn [andb negb];
    try (right; eexists; split; [reflexivity|];
         right; left; exists response; split_and!; [done|lia|done]).
  destruct (json response) as [e|data] eqn:Hjson.
  - right. exists (message e). split; [done|].
    right. right. exists response, e. split_and!; (done || lia).
  - left. by eexists.
Qed.

(** X5. The token handler returns exactly when the endpoint answered with a
    status in 200..299 and a JSON body, and then it returns that body as it
    is; a failed fetch is rethrown as it was caught, not wrapped. *)
Theorem token_handler_returns_ok_body
    (params : TokenParams) (fetch : Request → FetchOutcome) :
  (∀ data,
     token_handler params fetch = Return data
     ↔ ∃ response,
         fetch (token_request params) = Fetched response
         ∧ (200 ≤ status response ≤ 299)%Z
         ∧ json response = inr data)
  ∧ (∀ e,
       fetch (token_request params) = FetchFailed e →
       token_handler params fetch = Throw (ThrownError e)).
Proof.
  unfold token_handler. split.
  - intros data.
    destruct (fetch (token_request params)) as [e|response] eqn:Hfetch.
    { split; [discriminate|]. by intros (r & ? & _). }
    unfold ok.
    destruct (Z.leb_spec 200 (status response)) as [Hlo|Hlo];
      destruct (Z.leb_spec (status response) 299) as [Hhi|Hhi];
      cbn [andb negb].
    + destruct (json response) as [e|d] eqn:Hjson.
      * split; [discriminate|]. intros (r & [= <-] & _ & Hj). congruence.
      * split.
        -- intros [= <-]. exists response. split_and!; (done || lia).
        -- intros (r & [= <-] & _ & Hj). congruence.
    + split.
      * destruct (status response =? 400)%Z; [|discriminate].
        destruct (json response); discriminate.
      * intros (r & [= <-] & Hr & _). lia.
    + split.
      * destruct (status response =? 400)%Z; [|discriminate].
        destruct (json response); discriminate.
      * intros (r & [= <-] & Hr & _). lia.
    + split.
      * destruct (status response =? 400)%Z; [|discriminate].
        destruct (json response); discriminate.
      * intros (r & [= <-] & Hr & _). lia.
  - intros e ->. reflexivity.
Qed.

End HandlerOutcomes.

(** ** Accounting over runs of the polling loop *)

Section Accounting.
Import Js DialogTypes.
#[local] Open Scope list_scope.

Lemma replicate_app_cons {A} (n : nat) (x : A) (l : list A) :
  replicate n x ++ x :: l = (x :: replicate n x) ++ l.
Proof.
  induction n as [|n IH]; [done|].
  cbn [replicate app] in *. by rewrite IH.
Qed.

(** What is known when a poll has scheduled the next one. *)
Lemma expiry_poll_continue (render : Expiry.Ui) (args : PollArgs) (now : Z)
    (r : Completion QwenTokenResponse) (now_done : Z) (w : Expiry.World)
    (tm : Expiry.Timer) :
  let w' := Expiry.pollForToken render args now r now_done w in
  Expiry.timers w' = tm :: Expiry.timers w →
  (now ≤ Expiry.deviceCodeExpiry render)%Z
  ∧ Expiry.token_requests w' = params_of args :: Expiry.token_requests w
  ∧ Expiry.ui w' = Expiry.ui w
  ∧ Expiry.closure tm = render
  ∧ params_of (Expiry.poll tm) = params_of args
  ∧ Expiry.delay tm = pa_interval (Expiry.poll tm) * 1000
  ∧ pa_interval (Expiry.poll tm)
    = pa_interval args + (if answers_b "slow_down" r then 5 else 0).
Proof.
  cbn zeta. unfold Expiry.pollForToken.
  destruct (Z.gtb_spec now (Expiry.deviceCodeExpiry render)) as [Hgt|Hle].
  { intros H. by destruct (cons_neq tm (Expiry.timers w)). }
  destruct r as [result|e].
  { intros H. by destruct (cons_neq tm (Expiry.timers w)). }
  unfold Expiry.on_poll_error, answers_b.
  destruct (strict_eq_str _ "authorization_pending") eqn:Hp.
  { apply strict_eq_str_true in Hp.
    rewrite (strict_eq_str_other _ _ "slow_down" Hp) by done.
    cbn. intros [= <-]. cbn. split_and!; (done || lia). }
  destruct (strict_eq_str _ "slow_down") eqn:Hs.
  { cbn. intros [= <-]. cbn. split_and!; (done || lia). }
  repeat (destruct (strict_eq_str _ _);
          [intros H; by destruct (cons_neq tm (Expiry.timers w))|]).
  destruct (Expiry.is_network_error e) as [[]|];
    try (intros H; by destruct (cons_neq tm (Expiry.timers w))).
  cbn. intros [= <-]. cbn. split_and!; (done || lia).
Qed.

Lemma plain_poll_continue (args : PollArgs)
    (r : Completion QwenTokenResponse) (now_done : Z) (w : Plain.World)
    (tm : Plain.Timer) :
  let w' := Plain.pollForToken args r now_done w in
  Plain.timers w' = tm :: Plain.timers w →
  Plain.ui w' = Plain.ui w
  ∧ params_of (Plain.poll tm) = params_of args
  ∧ Plain.delay tm = pa_interval (Plain.poll tm) * 1000
  ∧ pa_interval (Plain.poll tm)
    = pa_interval args + (if answers_b "slow_down" r then 5 else 0).
Proof.
  cbn zeta. unfold Plain.pollForToken.
  destruct r as [result|e].
  { intros H. by destruct (cons_neq tm (Plain.timers w)). }
  unfold Plain.on_poll_error, answers_b.
  destruct (Plain.nullish e).
  { intros H. by destruct (cons_neq tm (Plain.timers w)). }
  destruct (strict_eq_str _ "authorization_pending") eqn:Hp.
  { apply strict_eq_str_true in Hp.
    rewrite (strict_eq_str_other _ _ "slow_down" Hp) by done.
    cbn. intros [= <-]. cbn. split_and!; (done || lia). }
  destruct (strict_eq_str _ "slow_down") eqn:Hs.
  { cbn. intros [= <-]. cbn. split_and!; (done || lia). }
  intros H. by destruct (cons_neq tm (Plain.timers w)).
Qed.

(** A wake-up with one timer pending leaves none or one. *)
Lemma expiry_fire_one_timer (t : Expiry.Tick) (w : Expiry.World) tm :
  Expiry.timers w = [tm] →
  Expiry.timers (Expiry.fire t w) = []
  ∨ ∃ tm', Expiry.timers (Expiry.fire t w) = [tm'].
Proof.
  intros Hw. rewrite (expiry_fire_one t w tm [] Hw).
  destruct (expiry_poll_cases (Expiry.closure tm) (Expiry.poll tm)
              (Expiry.now t) (Expiry.response t) (Expiry.now_done t)
              (Expiry.with_timers [] w)) as [H|(tm' & H & _)];
    rewrite H; eauto.
Qed.

Lemma plain_fire_one_timer (t : Plain.Tick) (w : Plain.World) tm :
  Plain.timers w = [tm] →
  Plain.timers (Plain.fire t w) = []
  ∨ ∃ tm', Plain.timers (Plain.fire t w) = [tm'].
Proof.
  intros Hw. rewrite (plain_fire_one t w tm [] Hw).
  destruct (plain_poll_cases (Plain.poll tm) (Plain.response t)
              (Plain.now_done t) (Plain.with_timers [] w))
    as [H|(tm' & H & _)];
    rewrite H; eauto.
Qed.

(** The books of a run that is still polling at its end: one request per
    wake-up, five seconds more per 'slow_down', every wake-up within the
    expiry its call reads. *)
Lemma expiry_run_accounting (ticks : list Expiry.Tick) :
  ∀ (w : Expiry.World) (tm : Expiry.Timer),
    Expiry.timers w = [tm] →
    Expiry.timers (Expiry.run ticks w) ≠ [] →
    ∃ tm',
      Expiry.timers (Expiry.run ticks w) = [tm']
      ∧ pa_interval (Expiry.poll tm')
        = pa_interval (Expiry.poll tm)
          + 5 * Z.of_nat
                  (length
                     (List.filter
                        (λ t, answers_b "slow_down" (Expiry.response t))
                        ticks))
      ∧ Expiry.token_requests (Expiry.run ticks w)
        = replicate (length ticks) (params_of (Expiry.poll tm))
          ++ Expiry.token_requests w
      ∧ Forall (λ t, (Expiry.now t
                      ≤ Expiry.deviceCodeExpiry (Expiry.closure tm))%Z)
          ticks.
Proof.
  induction ticks as [|t ticks IH]; intros w tm Hw Hrun.
  { exists tm. split_and!; [done|cbn; lia|done|done]. }
  rewrite expiry_run_cons in Hrun |- *.
  destruct (expiry_fire_one_timer t w tm Hw) as [Hstop|(tm1 & Htm1)].
  { rewrite expiry_run_idle in Hrun by exact Hstop. by rewrite Hstop in Hrun. }
  pose proof Htm1 as Hstep.
  rewrite (expiry_fire_one t w tm [] Hw) in Hstep.
  apply (expiry_poll_continue _ _ _ _ _ (Expiry.with_timers [] w)) in Hstep
    as (Hnow & Hreq & _ & Hcl & Hpar & _ & Hiv).
  rewrite <- (expiry_fire_one t w tm [] Hw) in Hreq.
  destruct (IH _ tm1 Htm1 Hrun) as (tm' & Ht' & Hiv' & Hreq' & Hall).
  exists tm'. split_and!.
  - done.
  - rewrite Hiv', Hiv. cbn [List.filter].
    destruct (answers_b "slow_down" (Expiry.response t)); cbn [length]; lia.
  - rewrite Hreq', Hreq, Hpar. cbn [length replicate Expiry.with_timers
      Expiry.token_requests].
    apply replicate_app_cons.
  - constructor; [done|]. by rewrite Hcl in Hall.
Qed.

Lemma plain_run_accounting (ticks : list Plain.Tick) :
  ∀ (w : Plain.World) (tm : Plain.Timer),
    Plain.timers w = [tm] →
    Plain.timers (Plain.run ticks w) ≠ [] →
    ∃ tm',
      Plain.timers (Plain.run ticks w) = [tm']
      ∧ pa_interval (Plain.poll tm')
        = pa_interval (Plain.poll tm)
          + 5 * Z.of_nat
                  (length
                     (List.filter
                        (λ t, answers_b "slow_down" (Plain.response t))
                        ticks))
      ∧ Plain.token_requests (Plain.run ticks w)
        = replicate (length ticks) (params_of (Plain.poll tm))
          ++ Plain.token_requests w.
Proof.
  induction ticks as [|t ticks IH]; intros w tm Hw Hrun.
  { exists tm. split_and!; [done|cbn; lia|done]. }
  rewrite plain_run_cons in Hrun |- *.
  destruct (plain_fire_one_timer t w tm Hw) as [Hstop|(tm1 & Htm1)].
  { rewrite plain_run_idle in Hrun by exact Hstop. by rewrite Hstop in Hrun. }
  pose proof Htm1 as Hstep.
  rewrite (plain_fire_one t w tm [] Hw) in Hstep.
  apply (plain_poll_continue _ _ _ (Plain.with_timers [] w)) in Hstep
    as (_ & Hpar & _ & Hiv).
  pose proof (plain_poll_requests (Plain.poll tm) (Plain.response t)
                (Plain.now_done t) (Plain.with_timers [] w)) as Hreq.
  rewrite <- (plain_fire_one t w tm [] Hw) in Hreq.
  destruct (IH _ tm1 Htm1 Hrun) as (tm' & Ht' & Hiv' & Hreq').
  exists tm'. split_and!.
  - done.
  - rewrite Hiv', Hiv. cbn [List.filter].
    destruct (answers_b "slow_down" (Plain.response t)); cbn [length]; lia.
  - rewrite Hreq', Hreq, Hpar. cbn [length replicate Plain.with_timers
      Plain.token_requests].
    apply replicate_app_cons.
Qed.

End Accounting.

(** ** What a run of the polling loop adds up to *)

Section RunProperties.
Import Js DialogTypes.
#[local] Open Scope list_scope.

(** X6. After any run that is still polling, the interval is the one the
    run started with plus five seconds for every 'slow_down' answer in it,
    in both dialogs: back-off adds up and nothing else changes the
    interval. *)
Theorem slow_down_answers_add_five_seconds_each :
  (∀ (ticks : list Expiry.Tick) (w : Expiry.World) (tm tm' : Expiry.Timer),
     Expiry.timers w = [tm] →
     Expiry.timers (Expiry.run ticks w) = [tm'] →
     pa_interval (Expiry.poll tm')
     = pa_interval (Expiry.poll tm)
       + 5 * Z.of_nat
               (length
                  (List.filter
                     (λ t, answers_b "slow_down" (Expiry.response t))
                     ticks)))
  ∧ (∀ (ticks : list Plain.Tick) (w : Plain.World) (tm tm' : Plain.Timer),
       Plain.timers w = [tm] →
       Plain.timers (Plain.run ticks w) = [tm'] →
       pa_interval (Plain.poll tm')
       = pa_interval (Plain.poll tm)
         + 5 * Z.of_nat
                 (length
                    (List.filter
                       (λ t, answers_b "slow_down" (Plain.response t))
                       ticks))).
Proof.
  split.
  - intros ticks w tm tm' Hw Hrun.
    destruct (expiry_run_accounting ticks w tm Hw) as (tm1 & H1 & Hiv & _).
    { by rewrite Hrun. }
    rewrite Hrun in H1. by injection H1 as <-.
  - intros ticks w tm tm' Hw Hrun.
    destruct (plain_run_accounting ticks w tm Hw) as (tm1 & H1 & Hiv & _).
    { by rewrite Hrun. }
    rewrite Hrun in H1. by injection H1 as <-.
Qed.

(** X7. A run that is still polling has sent exactly one token request per
    wake-up, each with the device code and verifier of the timer it started
    from, in both dialogs. *)
Theorem one_token_request_per_wake_up :
  (∀ (ticks : list Expiry.Tick) (w : Expiry.World) (tm : Expiry.Timer),
     Expiry.timers w = [tm] →
     Expiry.timers (Expiry.run ticks w) ≠ [] →
     Expiry.token_requests (Expiry.run ticks w)
     = replicate (length ticks) (params_of (Expiry.poll tm))
       ++ Expiry.token_requests w)
  ∧ (∀ (ticks : list Plain.Tick) (w : Plain.World) (tm : Plain.Timer),
       Plain.timers w = [tm] →
       Plain.timers (Plain.run ticks w) ≠ [] →
       Plain.token_requests (Plain.run ticks w)
       = replicate (length ticks) (params_of (Plain.poll tm))
         ++ Plain.token_requests w).
Proof.
  split.
  - intros ticks w tm Hw Hrun.
    by destruct (expiry_run_accounting ticks w tm Hw Hrun) as (? & _ & _ & ? & _).
  - intros ticks w tm Hw Hrun.
    by destruct (plain_run_accounting ticks w tm Hw Hrun) as (? & _ & _ & ?).
Qed.

(** X8. In the dialog with expiry tracking no flow survives a wake-up that
    comes after the expiry its calls read: once one wake-up of the run is
    past it, no poll is pending at the end of the run. *)
Theorem no_poll_pending_after_late_wake_up
    (ticks : list Expiry.Tick) (w : Expiry.World) (tm : Expiry.Timer)
    (t : Expiry.Tick) :
  Expiry.timers w = [tm] →
  t ∈ ticks →
  (Expiry.deviceCodeExpiry (Expiry.closure tm) < Expiry.now t)%Z →
  Expiry.timers (Expiry.run ticks w) = [].
Proof.
  intros Hw Ht Hlate.
  destruct (Expiry.timers (Expiry.run ticks w)) as [|tm1 rest] eqn:Hrun;
    [done|].
  destruct (expiry_run_accounting ticks w tm Hw) as (_ & _ & _ & _ & Hall).
  { by rewrite Hrun. }
  rewrite Forall_forall in Hall. specialize (Hall t Ht). lia.
Qed.

(** Polling never adds to the number of pending timers. *)
Lemma expiry_fire_timers_le (t : Expiry.Tick) (w : Expiry.World) :
  (length (Expiry.timers (Expiry.fire t w)) ≤ length (Expiry.timers w))%nat.
Proof.
  destruct (Expiry.timers w) as [|tm rest] eqn:Hw.
  { unfold Expiry.fire. by rewrite Hw, Hw. }
  rewrite (expiry_fire_one t w tm rest Hw).
  destruct (expiry_poll_cases (Expiry.closure tm) (Expiry.poll tm)
              (Expiry.now t) (Expiry.response t) (Expiry.now_done t)
              (Expiry.with_timers rest w)) as [H|(tm' & H & _)];
    rewrite H; cbn; lia.
Qed.

Lemma plain_fire_timers_le (t : Plain.Tick) (w : Plain.World) :
  (length (Plain.timers (Plain.fire t w)) ≤ length (Plain.timers w))%nat.
Proof.
  destruct (Plain.timers w) as [|tm rest] eqn:Hw.
  { unfold Plain.fire. by rewrite Hw, Hw. }
  rewrite (plain_fire_one t w tm rest Hw).
  destruct (plain_poll_cases (Plain.poll tm) (Plain.response t)
              (Plain.now_done t) (Plain.with_timers rest w))
    as [H|(tm' & H & _)];
    rewrite H; cbn; lia.
Qed.

(** X9. A flow has at most one poll pending: [startOAuthFlow] adds at most
    one timer to those pending, and no run of the loop ever has more timers
    pending than it started with. This holds in both dialogs. *)
Theorem polling_never_multiplies_timers :
  (∀ (ticks : list Expiry.Tick) (w : Expiry.World),
     (length (Expiry.timers (Expiry.run ticks w))
      ≤ length (Expiry.timers w))%nat)
  ∧ (∀ device now_issued opening now_polling (w : Expiry.World),
       (length (Expiry.timers
                  (Expiry.startOAuthFlow device now_issued opening
                     now_polling w))
        ≤ S (length (Expiry.timers w)))%nat)
  ∧ (∀ (ticks : list Plain.Tick) (w : Plain.World),
       (length (Plain.timers (Plain.run ticks w))
        ≤ length (Plain.timers w))%nat)
  ∧ (∀ device opening first (w : Plain.World),
       (length (Plain.timers (Plain.startOAuthFlow device opening first w))
        ≤ S (length (Plain.timers w)))%nat).
Proof.
  split_and!.
  - induction ticks as [|t ticks IH]; intros w; [done|].
    rewrite expiry_run_cons. etrans; [apply IH|apply expiry_fire_timers_le].
  - intros device now_issued opening now_polling w.
    unfold Expiry.startOAuthFlow.
    destruct device as [r|err]; [destruct opening|]; cbn; lia.
  - induction ticks as [|t ticks IH]; intros w; [done|].
    rewrite plain_run_cons. etrans; [apply IH|apply plain_fire_timers_le].
  - intros device opening first w. unfold Plain.startOAuthFlow.
    destruct device as [r|err]; [destruct opening|]; try (cbn; lia).
    match goal with
    | |- context [Plain.pollForToken ?a ?r ?n ?w0] =>
        destruct (plain_poll_cases a r n w0) as [H|(tm' & H & _)]
    end; rewrite H; cbn; lia.
Qed.

(** The timers of a run were all created by the renders that created the
    timers it started from. *)
Lemma expiry_run_closures (P : Expiry.Ui → Prop) (ticks : list Expiry.Tick) :
  ∀ w : Expiry.World,
    Forall (λ tm, P (Expiry.closure tm)) (Expiry.timers w) →
    Forall (λ tm, P (Expiry.closure tm)) (Expiry.timers (Expiry.run ticks w)).
Proof.
  induction ticks as [|t ticks IH]; intros w Hw; [done|].
  rewrite expiry_run_cons. apply IH.
  destruct (Expiry.timers w) as [|tm rest] eqn:Htimers.
  { unfold Expiry.fire. by rewrite Htimers, Htimers. }
  rewrite (expiry_fire_one t w tm rest Htimers).
  apply Forall_cons in Hw as [Htm Hrest].
  destruct (expiry_poll_cases (Expiry.closure tm) (Expiry.poll tm)
              (Expiry.now t) (Expiry.response t) (Expiry.now_done t)
              (Expiry.with_timers rest w))
    as [H|(tm' & H & _ & _ & _ & Hcl & _)];
    rewrite H; cbn; [done|].
  constructor; [by rewrite Hcl|done].
Qed.

(** X10. Every poll of a flow reads the component state of the render that
    [startOAuthFlow] was called from: whatever the device-code answer says
    (its [expires_in] included) and however long the flow runs, the expiry
    its calls compare the clock with is the one that render had. *)
Theorem flow_polls_read_the_starting_render
    (device : Completion DeviceCodeResult) (now_issued : Z)
    (opening : Completion unit) (now_polling : Z)
    (ticks : list Expiry.Tick) (w : Expiry.World) :
  Expiry.timers w = [] →
  Forall (λ tm, Expiry.closure tm = Expiry.ui w)
    (Expiry.timers
       (Expiry.run ticks
          (Expiry.startOAuthFlow device now_issued opening now_polling w))).
Proof.
  intros Hw. apply (expiry_run_closures (λ u, u = Expiry.ui w)).
  unfold Expiry.startOAuthFlow.
  destruct device as [r|err]; [destruct opening|]; cbn; rewrite Hw;
    repeat constructor.
Qed.

End RunProperties.

(** ** Pending answers, closing the dialog, failed starts *)

Section FlowEdges.
Import Js DialogTypes.
#[local] Open Scope list_scope.

Lemma answers_b_true (code : string) (r : Completion QwenTokenResponse) :
  answers_b code r = true →
  ∃ e, r = Throw e ∧ prop e "error" = JStr code.
Proof.
  destruct r as [?|e]; [discriminate|]. cbn.
  intros H%strict_eq_str_true. by exists e.
Qed.

Lemma expiry_poll_pending (render : Expiry.Ui) (args : PollArgs) (now : Z)
    (r : Completion QwenTokenResponse) (now_done : Z) (w : Expiry.World) :
  (now ≤ Expiry.deviceCodeExpiry render)%Z →
  answers_b "authorization_pending" r = true →
  Expiry.pollForToken render args now r now_done w
  = Expiry.setTimeout
      {| Expiry.delay := pa_interval args * 1000; Expiry.poll := args;
         Expiry.closure := render |}
      (Expiry.qwenOAuthToken (params_of args) w).
Proof.
  intros Hnow (e & -> & He)%answers_b_true.
  unfold Expiry.pollForToken, Expiry.on_poll_error.
  by rewrite (gtb_false_of_le _ _ Hnow), He.
Qed.

Lemma plain_poll_pending (args : PollArgs)
    (r : Completion QwenTokenResponse) (now_done : Z) (w : Plain.World) :
  answers_b "authorization_pending" r = true →
  Plain.pollForToken args r now_done w
  = Plain.setTimeout
      {| Plain.delay := pa_interval args * 1000; Plain.poll := args |}
      (Plain.qwenOAuthToken (params_of args) w).
Proof.
  intros (e & -> & He)%answers_b_true.
  unfold Plain.pollForToken, Plain.on_poll_error.
  by rewrite (error_code_not_nullish e _ He), He.
Qed.

(** X11. While every answer is 'authorization_pending' the dialog keeps
    polling with the same arguments and shows the same state, however many
    answers there are: the dialog without expiry tracking has no bound on
    the number of polls at all, the one with expiry tracking is bounded only
    by the expiry its calls read. *)
Theorem pending_answers_keep_polling :
  (∀ (ticks : list Plain.Tick) (w : Plain.World) (tm : Plain.Timer),
     Plain.timers w = [tm] →
     Forall (λ t, answers_b "authorization_pending" (Plain.response t) = true)
       ticks →
     (∃ tm', Plain.timers (Plain.run ticks w) = [tm']
             ∧ Plain.poll tm' = Plain.poll tm)
     ∧ Plain.ui (Plain.run ticks w) = Plain.ui w
     ∧ length (Plain.token_requests (Plain.run ticks w))
       = (length ticks + length (Plain.token_requests w))%nat)
  ∧ (∀ (ticks : list Expiry.Tick) (w : Expiry.World) (tm : Expiry.Timer),
       Expiry.timers w = [tm] →
       Forall (λ t,
                 answers_b "authorization_pending" (Expiry.response t) = true
                 ∧ (Expiry.now t
                    ≤ Expiry.deviceCodeExpiry (Expiry.closure tm))%Z)
         ticks →
       (∃ tm', Expiry.timers (Expiry.run ticks w) = [tm']
               ∧ Expiry.poll tm' = Expiry.poll tm
               ∧ Expiry.closure tm' = Expiry.closure tm)
       ∧ Expiry.ui (Expiry.run ticks w) = Expiry.ui w
       ∧ length (Expiry.token_requests (Expiry.run ticks w))
         = (length ticks + length (Expiry.token_requests w))%nat).
Proof.
  split.
  - induction ticks as [|t ticks IH]; intros w tm Hw Hall.
    { split_and!; [by exists tm|done|done]. }
    apply Forall_cons in Hall as [Ht Hall].
    rewrite plain_run_cons, (plain_fire_one t w tm [] Hw).
    rewrite (plain_poll_pending _ _ _ _ Ht).
    match goal with
    | |- context [Plain.run ticks ?w1] =>
        destruct (IH w1 {| Plain.delay := pa_interval (Plain.poll tm) * 1000;
                           Plain.poll := Plain.poll tm |} eq_refl Hall)
          as ((tm' & Htm' & Hpoll) & Hui & Hlen)
    end.
    split_and!; [by exists tm'|done|].
    rewrite Hlen. cbn. lia.
  - induction ticks as [|t ticks IH]; intros w tm Hw Hall.
    { split_and!; [by exists tm|done|done]. }
    apply Forall_cons in Hall as [[Ht Hnow] Hall].
    rewrite expiry_run_cons, (expiry_fire_one t w tm [] Hw).
    rewrite (expiry_poll_pending _ _ _ _ _ _ Hnow Ht).
    match goal with
    | |- context [Expiry.run ticks ?w1] =>
        destruct (IH w1 {| Expiry.delay := pa_interval (Expiry.poll tm) * 1000;
                           Expiry.poll := Expiry.poll tm;
                           Expiry.closure := Expiry.closure tm |}
                    eq_refl Hall)
          as ((tm' & Htm' & Hpoll & Hcl) & Hui & Hlen)
    end.
    split_and!; [by exists tm'|done|].
    rewrite Hlen. cbn. lia.
Qed.

(** X12. [handleClose] resets the step and the error and cancels nothing:
    the pending poll stays, and when its token call then resolves the
    credential is still handed to [updateSettings] and the step becomes
    'success'. This holds in both dialogs. *)
Theorem closing_the_dialog_does_not_stop_polling :
  (∀ (w : Expiry.World) (tm : Expiry.Timer) (t : Expiry.Tick)
     (result : QwenTokenResponse),
     Expiry.timers w = [tm] →
     (Expiry.now t ≤ Expiry.deviceCodeExpiry (Expiry.closure tm))%Z →
     Expiry.response t = Return result →
     let closed := Expiry.handleClose w in
     let w' := Expiry.fire t closed in
     Expiry.step (Expiry.ui closed) = step_device_code
     ∧ Expiry.timers closed = [tm]
     ∧ Expiry.step (Expiry.ui w') = step_success
     ∧ Expiry.toasts w' = success_toast :: Expiry.toasts w
     ∧ ∃ s, Expiry.settings w' = s :: Expiry.settings w
            ∧ Expiry.value (Expiry.qwenAccessToken s) = access_token result)
  ∧ (∀ (w : Plain.World) (tm : Plain.Timer) (t : Plain.Tick)
       (result : QwenTokenResponse),
       Plain.timers w = [tm] →
       Plain.response t = Return result →
       let closed := Plain.handleClose w in
       let w' := Plain.fire t closed in
       Plain.step (Plain.ui closed) = step_device_code
       ∧ Plain.timers closed = [tm]
       ∧ Plain.step (Plain.ui w') = step_success
       ∧ Plain.toasts w' = success_toast :: Plain.toasts w
       ∧ ∃ s, Plain.settings w' = s :: Plain.settings w
              ∧ Plain.qwenAccessToken s = access_token result).
Proof.
  split.
  - intros w tm t result Hw Hnow Hr closed w'.
    assert (Hclosed : Expiry.timers closed = [tm]) by exact Hw.
    unfold w'. rewrite (expiry_fire_one t closed tm [] Hclosed), Hr.
    unfold Expiry.pollForToken. rewrite (gtb_false_of_le _ _ Hnow).
    split_and!; [done..|]. by eexists.
  - intros w tm t result Hw Hr closed w'.
    assert (Hclosed : Plain.timers closed = [tm]) by exact Hw.
    unfold w'. rewrite (plain_fire_one t closed tm [] Hclosed), Hr.
    split_and!; [done..|]. by eexists.
Qed.

(** X13. [startOAuthFlow] always ends with [isLoading] false, and a start
    that failed never polls: when the device-code call or the opening of the
    URL is rejected, the step is 'error', the message is that of the
    [Error] caught (or the fixed text for any other value), no timer is
    added and no token request is sent. The URL is opened only once the
    device code has arrived. This holds in both dialogs. *)
Theorem failed_start_never_polls :
  (∀ device now_issued opening now_polling (w : Expiry.World),
     let w' := Expiry.startOAuthFlow device now_issued opening now_polling w
     in
     Expiry.isLoading (Expiry.ui w') = false
     ∧ (∀ err, device = Throw err ∨ (opening = Throw err
                                     ∧ ∃ r, device = Return r) →
          Expiry.step (Expiry.ui w') = step_error
          ∧ Expiry.error (Expiry.ui w') = JStr (start_error_message err)
          ∧ Expiry.timers w' = Expiry.timers w
          ∧ Expiry.token_requests w' = Expiry.token_requests w)
     ∧ (∀ err, device = Throw err → Expiry.opened w' = Expiry.opened w))
  ∧ (∀ device opening first (w : Plain.World),
       let w' := Plain.startOAuthFlow device opening first w in
       (∀ err, device = Throw err ∨ (opening = Throw err
                                     ∧ ∃ r, device = Return r) →
          Plain.isLoading (Plain.ui w') = false
          ∧ Plain.step (Plain.ui w') = step_error
          ∧ Plain.error (Plain.ui w') = JStr (start_error_message err)
          ∧ Plain.timers w' = Plain.timers w
          ∧ Plain.token_requests w' = Plain.token_requests w)
       ∧ (∀ err, device = Throw err → Plain.opened w' = Plain.opened w)).
Proof.
  split.
  - intros device now_issued opening now_polling w.
    unfold Expiry.startOAuthFlow. cbn zeta. split_and!.
    + by destruct device as [r|e]; [destruct opening|].
    + intros err [->|[-> [r ->]]]; done.
    + by intros err ->.
  - intros device opening first w.
    unfold Plain.startOAuthFlow. cbn zeta. split.
    + intros err [->|[-> [r ->]]]; done.
    + by intros err ->.
Qed.

End FlowEdges.

(** ** Delays and messages *)

Section DelaysAndMessages.
Import Js DialogTypes.
#[local] Open Scope list_scope.

Lemma interval_or_5_positive (i : option Z) :
  (∀ n, i = Some n → 0 ≤ n)%Z → (1 ≤ interval_or_5 i)%Z.
Proof.
  destruct i as [n|]; cbn; [|lia].
  intros H. specialize (H n eq_refl).
  destruct (Z.eqb_spec n 0); lia.
Qed.

Lemma expiry_run_delays (ticks : list Expiry.Tick) :
  ∀ w : Expiry.World,
    Forall (λ tm, 1000 ≤ Expiry.delay tm ∧ 1 ≤ pa_interval (Expiry.poll tm))%Z
      (Expiry.timers w) →
    Forall (λ tm, 1000 ≤ Expiry.delay tm ∧ 1 ≤ pa_interval (Expiry.poll tm))%Z
      (Expiry.timers (Expiry.run ticks w)).
Proof.
  induction ticks as [|t ticks IH]; intros w Hw; [done|].
  rewrite expiry_run_cons. apply IH.
  destruct (Expiry.timers w) as [|tm rest] eqn:Htimers.
  { unfold Expiry.fire. by rewrite Htimers, Htimers. }
  rewrite (expiry_fire_one t w tm rest Htimers).
  apply Forall_cons in Hw as [[_ Htm] Hrest].
  destruct (expiry_poll_cases (Expiry.closure tm) (Expiry.poll tm)
              (Expiry.now t) (Expiry.response t) (Expiry.now_done t)
              (Expiry.with_timers rest w))
    as [H|(tm' & H & _ & _ & _ & _ & _ & _ & Hd & Hiv)];
    rewrite H; cbn; [done|].
  constructor; [lia|done].
Qed.

Lemma plain_run_delays (ticks : list Plain.Tick) :
  ∀ w : Plain.World,
    Forall (λ tm, 1000 ≤ Plain.delay tm ∧ 1 ≤ pa_interval (Plain.poll tm))%Z
      (Plain.timers w) →
    Forall (λ tm, 1000 ≤ Plain.delay tm ∧ 1 ≤ pa_interval (Plain.poll tm))%Z
      (Plain.timers (Plain.run ticks w)).
Proof.
  induction ticks as [|t ticks IH]; intros w Hw; [done|].
  rewrite plain_run_cons. apply IH.
  destruct (Plain.timers w) as [|tm rest] eqn:Htimers.
  { unfold Plain.fire. by rewrite Htimers, Htimers. }
  rewrite (plain_fire_one t w tm rest Htimers).
  apply Forall_cons in Hw as [[_ Htm] Hrest].
  destruct (plain_poll_cases (Plain.poll tm) (Plain.response t)
              (Plain.now_done t) (Plain.with_timers rest w))
    as [H|(tm' & H & _ & _ & _ & _ & _ & Hd & Hiv)];
    rewrite H; cbn; [done|].
  constructor; [lia|done].
Qed.

(** X14. When the interval of the device-code answer is missing, 0 or a
    whole number of seconds from 1 on, every timer of the flow waits at
    least one second: the first interval is the server's, or 5 when that is
    missing or 0, and it only grows. (Intervals are integers here; a
    negative interval is passed to [setTimeout] as it is, and so would be a
    fraction of a second.) This holds in both dialogs. *)
Theorem flow_waits_at_least_a_second :
  (∀ (r : DeviceCodeResult) now_issued opening now_polling
     (ticks : list Expiry.Tick) (w : Expiry.World),
     (∀ n, interval r = Some n → 0 ≤ n)%Z →
     Expiry.timers w = [] →
     Forall (λ tm, 1000 ≤ Expiry.delay tm)%Z
       (Expiry.timers
          (Expiry.run ticks
             (Expiry.startOAuthFlow (Return r) now_issued opening
                now_polling w))))
  ∧ (∀ (r : DeviceCodeResult) opening first
       (ticks : list Plain.Tick) (w : Plain.World),
       (∀ n, interval r = Some n → 0 ≤ n)%Z →
       Plain.timers w = [] →
       Forall (λ tm, 1000 ≤ Plain.delay tm)%Z
         (Plain.timers
            (Plain.run ticks
               (Plain.startOAuthFlow (Return r) opening first w)))).
Proof.
  split.
  - intros r now_issued opening now_polling ticks w Hiv Hw.
    eapply Forall_impl; [apply expiry_run_delays|by intros tm [? _]].
    apply interval_or_5_positive in Hiv.
    unfold Expiry.startOAuthFlow.
    destruct opening; cbn; rewrite Hw; [|done].
    repeat constructor; (done || lia).
  - intros r opening first ticks w Hiv Hw.
    eapply Forall_impl; [apply plain_run_delays|by intros tm [? _]].
    apply interval_or_5_positive in Hiv.
    unfold Plain.startOAuthFlow.
    destruct opening as [[]|err]; [|cbn; by rewrite Hw].
    match goal with
    | |- context [Plain.pollForToken ?a ?r ?n ?w0] =>
        destruct (plain_poll_cases a r n w0)
          as [H|(tm' & H & _ & _ & _ & _ & _ & Hd & Hi)]
    end; rewrite H; cbn; rewrite Hw; [done|].
    cbn in Hi. repeat constructor; lia.
Qed.

Lemma or_else_truthy (a b : JValue) :
  truthy b = true → truthy (or_else a b) = true.
Proof.
  intros Hb. unfold or_else. by destruct (truthy a) eqn:Ha.
Qed.

(** X15. A poll that moves the dialog to the 'error' step always leaves a
    message to show: the error it sets is never empty (nor any other falsy
    value), whatever was caught. This holds in both dialogs. *)
Theorem poll_failure_always_has_a_message :
  (∀ (render : Expiry.Ui) (args : PollArgs) (now : Z)
     (r : Completion QwenTokenResponse) (now_done : Z) (w : Expiry.World),
     Expiry.step (Expiry.ui w) ≠ step_error →
     let w' := Expiry.pollForToken render args now r now_done w in
     Expiry.step (Expiry.ui w') = step_error →
     truthy (Expiry.error (Expiry.ui w')) = true)
  ∧ (∀ (args : PollArgs) (r : Completion QwenTokenResponse) (now_done : Z)
       (w : Plain.World),
       Plain.step (Plain.ui w) ≠ step_error →
       let w' := Plain.pollForToken args r now_done w in
       Plain.step (Plain.ui w') = step_error →
       truthy (Plain.error (Plain.ui w')) = true).
Proof.
  split.
  - intros render args now r now_done w Hstep. cbn zeta.
    unfold Expiry.pollForToken.
    destruct (now >? Expiry.deviceCodeExpiry render)%Z; [by vm_compute|].
    destruct r as [result|e]; [discriminate|].
    unfold Expiry.on_poll_error.
    destruct (strict_eq_str _ "authorization_pending"); [done|].
    destruct (strict_eq_str _ "slow_down"); [done|].
    destruct (strict_eq_str _ "access_denied"); [by vm_compute|].
    destruct (strict_eq_str _ "expired_token"); [by vm_compute|].
    destruct (Expiry.is_network_error e) as [[]|]; [done| |done].
    intros _. cbn. by do 3 apply or_else_truthy.
  - intros args r now_done w Hstep. cbn zeta.
    unfold Plain.pollForToken.
    destruct r as [result|e]; [discriminate|].
    unfold Plain.on_poll_error.
    destruct (Plain.nullish e); [done|].
    destruct (strict_eq_str _ "authorization_pending"); [done|].
    destruct (strict_eq_str _ "slow_down"); [done|].
    intros _. cbn. by do 2 apply or_else_truthy.
Qed.

End DelaysAndMessages.

(** ** Substrings *)

Section Substrings.
Import Js.

Lemma append_String (c : ascii) (a post : string) :
  String c a ++ post = String c (a ++ post).
Proof. reflexivity. Qed.

Lemma prefix_spec (a b : string) :
  String.prefix a b = true ↔ ∃ post, b = a ++ post.
Proof.
  revert b. induction a as [|c a IH]; intros b.
  { split; [|by destruct b]. intros _. by exists b. }
  destruct b as [|d b]; cbn [String.prefix].
  { split; [discriminate|]. by intros (post & ?). }
  destruct (ascii_dec c d) as [->|Hne].
  - rewrite IH. split; intros (post & H); exists post;
      rewrite append_String in *; congruence.
  - split; [discriminate|]. intros (post & H).
    rewrite append_String in H. congruence.
Qed.

(** [includes] is the substring test. *)
Lemma includes_spec (k s : string) : includes k s = true ↔ contains k s.
Proof.
  unfold contains. split.
  - induction s as [|c s IH]; cbn [includes]; intros H.
    + rewrite orb_false_r in H. apply prefix_spec in H as (post & ->).
      by exists "", post.
    + apply orb_true_iff in H as [H|H].
      * apply prefix_spec in H as (post & ->). by exists "", post.
      * destruct (IH H) as (pre & post & ->). by exists (String c pre), post.
  - intros (pre & post & ->).
    induction pre as [|c pre IH].
    + change ("" ++ k ++ post) with (k ++ post).
      assert (String.prefix k (k ++ post) = true) as Hp
        by (apply prefix_spec; by exists post).
      destruct (k ++ post); cbn [includes]; by rewrite Hp.
    + rewrite append_String. cbn [includes]. rewrite IH. apply orb_true_r.
Qed.

End Substrings.

(** ** The hooks that read the stored credential *)

Section Hooks.
Import Js DialogTypes QwenAuthHooks.

Lemma geb_negb_ltb (a b : Z) : (a >=? b)%Z = negb (a <? b)%Z.
Proof.
  rewrite Z.geb_leb. destruct (Z.leb_spec b a), (Z.ltb_spec a b); (done || lia).
Qed.

(** X16. The two hooks agree: [useIsQwenAuthenticated] is true exactly when
    [useQwenProviderStatus] reports [isSetup], for all settings and
    times. *)
Theorem hooks_agree_on_authentication
    (settings : option Settings) (now : Z) :
  useIsQwenAuthenticated settings now
  = isSetup (useQwenProviderStatus settings now).
Proof.
  unfold useIsQwenAuthenticated, useQwenProviderStatus.
  destruct (not_configured settings); [done|].
  cbn. by rewrite geb_negb_ltb, negb_involutive.
Qed.

(** X17. The provider status is never both set up and expired, and it gives
    a number of days exactly when it is set up. Without settings, with a
    falsy token or with an expiry that is missing or 0, it is neither set up
    nor expired; otherwise it is expired from the expiry time on. *)
Theorem provider_status_is_consistent
    (settings : option Settings) (now : Z) :
  let status := useQwenProviderStatus settings now in
  isSetup status && isExpired status = false
  ∧ (isSetup status = true ↔ is_Some (expiresInDays status))
  ∧ (not_configured settings = true →
       status = {| isSetup := false; isExpired := false;
                   expiresInDays := None |})
  ∧ (not_configured settings = false →
       isExpired status = true ↔ (expiry_of settings ≤ now)%Z).
Proof.
  cbn zeta. unfold useQwenProviderStatus.
  destruct (not_configured settings).
  { cbn. split_and!; [done| |done|done].
    split; [done|]. by intros [? ?]. }
  rewrite geb_negb_ltb.
  destruct (Z.ltb_spec now (expiry_of settings)); cbn.
  - split_and!; [done|by split; eauto|done|].
    intros _. split; [done|lia].
  - split_and!; [done| |done|done].
    split; [done|]. by intros [? ?].
Qed.

Lemma ceil_div_bounds (x d : Z) :
  (0 < d)%Z → ((ceil_div x d - 1) * d < x ≤ ceil_div x d * d)%Z.
Proof.
  intros Hd. unfold ceil_div.
  pose proof (Z.div_mod (- x) d) as Hdm.
  pose proof (Z.mod_pos_bound (- x) d Hd) as Hr.
  nia.
Qed.

(** X18. The number of days the status gives is the remaining time rounded
    up to whole days: never less than 1, and one millisecond before the
    expiry it still says 1. *)
Theorem expires_in_days_rounds_up
    (settings : option Settings) (now : Z) (days : Z) :
  expiresInDays (useQwenProviderStatus settings now) = Some days →
  (1 ≤ days)%Z
  ∧ ((days - 1) * MS_PER_DAY < expiry_of settings - now ≤ days * MS_PER_DAY)%Z.
Proof.
  unfold useQwenProviderStatus.
  destruct (not_configured settings); [discriminate|].
  rewrite geb_negb_ltb.
  destruct (Z.ltb_spec now (expiry_of settings)) as [Hlt|]; cbn;
    [|discriminate].
  intros [= <-].
  pose proof (ceil_div_bounds (expiry_of settings - now) MS_PER_DAY eq_refl)
    as Hb.
  split; [|exact Hb].
  unfold MS_PER_DAY in *. lia.
Qed.

(** X19. After a successful poll of the dialog without expiry tracking, for
    settings that hold the token and the expiry as they were handed to
    [updateSettings], the application is authenticated exactly until the
    time the call resolved plus [expires_in] seconds, provided the access
    token is not empty and that expiry is not 0. *)
Theorem stored_credential_authenticates_until_expiry
    (args : PollArgs) (result : QwenTokenResponse) (now_done : Z)
    (w : Plain.World) (s : Plain.SettingsUpdate) (stored : Settings)
    (t : Z) :
  Plain.settings (Plain.pollForToken args (Return result) now_done w)
  = s :: Plain.settings w →
  qwenAccessToken stored = JStr (Plain.qwenAccessToken s) →
  qwenTokenExpiry stored = Some (Plain.qwenTokenExpiry s) →
  useIsQwenAuthenticated (Some stored) t = true
  ↔ access_token result ≠ ""
    ∧ (now_done + expires_in result * 1000 ≠ 0)%Z
    ∧ (t < now_done + expires_in result * 1000)%Z.
Proof.
  unfold Plain.pollForToken. cbn [Plain.settings Plain.showSuccess
    Plain.setStep Plain.with_ui Plain.updateSettings].
  intros Hs. injection Hs as <-.
  cbn [Plain.qwenAccessToken Plain.qwenTokenExpiry].
  intros Htoken Hexpiry.
  unfold useIsQwenAuthenticated, not_configured, expiry_of.
  rewrite Htoken, Hexpiry. cbn [truthy mbind option_bind default].
  destruct (String.eqb_spec (access_token result) "") as [Hempty|Hfull];
    cbn [negb orb].
  { split; [discriminate|]. by intros [? _]. }
  destruct (Z.eqb_spec (now_done + expires_in result * 1000) 0) as [Hz|Hnz].
  { split; [discriminate|]. by intros (_ & ? & _). }
  rewrite Hexpiry. cbn [default from_option id]. rewrite Z.ltb_lt. tauto.
Qed.

End Hooks.

(** ** The shell handlers and the retry test, by substrings *)

Section UrlsAndMessages.
Import Js DialogTypes ShellHandlers.

(** X20. "open-external-url" asks Electron for something exactly when the
    URL starts with "http://" or "https://", and then for one action on that
    very URL; for any other URL, the empty one included, it throws an
    [Error] and opens nothing. *)
Theorem open_external_url_opens_only_http
    (url : string) (external : Completion unit) :
  let actions := fst (open_external_url url external) in
  let completion := snd (open_external_url url external) in
  (String.prefix "http://" url || String.prefix "https://" url = true →
     actions = [ LoadInPopup oauth_window_options url ]
     ∨ actions = [ OpenExternal url ])
  ∧ (String.prefix "http://" url || String.prefix "https://" url = false →
       actions = []
       ∧ ∃ msg, completion = Throw (new_Error msg)).
Proof.
  cbn zeta. unfold open_external_url.
  destruct (String.eqb_spec url "") as [->|Hne].
  { cbn. split; [discriminate|]. intros _. split; [done|]. by eexists. }
  destruct (String.prefix "http://" url), (String.prefix "https://" url);
    cbn [negb andb orb];
    try (destruct (isOAuthUrl url); cbn [fst snd];
         (split; [intros _|intros H; discriminate H]);
         first [left; reflexivity | right; reflexivity]).
  cbn [fst snd]. split; [discriminate|]. intros _. split; [done|].
  by eexists.
Qed.

(** X21. An http(s) URL is loaded in the application's own popup window
    (without Node integration, with context isolation) exactly when it has
    "oauth", "device" or "qwen.ai" anywhere in it, and then the handler
    returns without calling [shell.openExternal]; every other http(s) URL
    goes to the default browser. In particular every URL under
    https://chat.qwen.ai is shown in the popup. *)
Theorem oauth_urls_open_in_the_popup
    (url : string) (external : Completion unit) :
  String.prefix "http://" url || String.prefix "https://" url = true →
  (contains "oauth" url ∨ contains "device" url ∨ contains "qwen.ai" url →
     open_external_url url external
     = ([ LoadInPopup oauth_window_options url ], Return ()))
  ∧ (¬ (contains "oauth" url ∨ contains "device" url
        ∨ contains "qwen.ai" url) →
       open_external_url url external = ([ OpenExternal url ], external))
  ∧ nodeIntegration oauth_window_options = false
  ∧ contextIsolation oauth_window_options = true
  ∧ (∀ rest, url = "https://chat.qwen.ai" ++ rest →
       open_external_url url external
       = ([ LoadInPopup oauth_window_options url ], Return ())).
Proof.
  intros Hhttp.
  assert (Hne : String.eqb url "" = false).
  { destruct url; [discriminate Hhttp|done]. }
  assert (Hguard : negb (String.prefix "http://" url)
                   && negb (String.prefix "https://" url) = false).
  { by destruct (String.prefix "http://" url),
               (String.prefix "https://" url). }
  assert (Hoauth : isOAuthUrl url = true
                   ↔ contains "oauth" url ∨ contains "device" url
                     ∨ contains "qwen.ai" url).
  { unfold isOAuthUrl. rewrite !orb_true_iff, !includes_spec. tauto. }
  unfold open_external_url. rewrite Hne, Hguard.
  split_and!.
  - intros H. apply Hoauth in H. by rewrite H.
  - intros H. destruct (isOAuthUrl url) eqn:Hb; [|done].
    destruct H. by apply Hoauth.
  - reflexivity.
  - reflexivity.
  - intros rest Hrest.
    assert (H : isOAuthUrl url = true).
    { apply Hoauth. right. right. exists "https://chat.", rest.
      by rewrite Hrest. }
    by rewrite H.
Qed.

(** X22. Of an [Error] instance caught by a poll that was sent, the dialog
    with expiry tracking looks only at the text and the code: it polls again
    after the current interval exactly when the message has "fetch" or
    "network" anywhere in it or the code is 'ECONNRESET', and otherwise
    stops in the 'error' step. *)
Theorem error_instance_is_retried_by_its_text
    (render : Expiry.Ui) (args : PollArgs) (now : Z) (err : JsError)
    (now_done : Z) (w : Expiry.World) :
  (now ≤ Expiry.deviceCodeExpiry render)%Z →
  let w' := Expiry.pollForToken render args now (Throw (ThrownError err))
              now_done w in
  let retried :=
    contains "fetch" (message err) ∨ contains "network" (message err)
    ∨ code err = Some "ECONNRESET" in
  (retried →
     Expiry.timers w'
     = {| Expiry.delay := pa_interval args * 1000; Expiry.poll := args;
          Expiry.closure := render |} :: Expiry.timers w
     ∧ Expiry.ui w' = Expiry.ui w)
  ∧ (¬ retried →
       Expiry.timers w' = Expiry.timers w
       ∧ Expiry.step (Expiry.ui w') = step_error
       ∧ Expiry.error (Expiry.ui w')
         = JStr (if String.eqb (message err) "" then "Authentication failed"
                 else message err)).
Proof.
  intros Hnow. cbn zeta.
  unfold Expiry.pollForToken, Expiry.on_poll_error.
  rewrite (gtb_false_of_le _ _ Hnow).
  change (prop (ThrownError err) "error") with JUndefined.
  cbn [strict_eq_str].
  assert (Hnet : Expiry.is_network_error (ThrownError err)
                 = Some (includes "fetch" (message err)
                         || includes "network" (message err)
                         || bool_decide (code err = Some "ECONNRESET"))).
  { unfold Expiry.is_network_error.
    change (prop (ThrownError err) "message") with (JStr (message err)).
    change (prop (ThrownError err) "code")
      with (from_option JStr JUndefined (code err)).
    cbn [opt_includes].
    destruct (includes "fetch" (message err)); [done|].
    destruct (includes "network" (message err)); [done|].
    cbn [orb]. f_equal.
    destruct (code err) as [c|]; cbn.
    - destruct (String.eqb_spec c "ECONNRESET") as [->|Hc].
      + by rewrite bool_decide_eq_true_2.
      + rewrite bool_decide_eq_false_2; [done|]. congruence.
    - by rewrite bool_decide_eq_false_2. }
  rewrite Hnet.
  assert (Hiff : includes "fetch" (message err)
                 || includes "network" (message err)
                 || bool_decide (code err = Some "ECONNRESET") = true
                 ↔ contains "fetch" (message err)
                   ∨ contains "network" (message err)
                   ∨ code err = Some "ECONNRESET").
  { rewrite !orb_true_iff, !includes_spec, bool_decide_eq_true. tauto. }
  destruct (_ || _ || _) eqn:Hb.
  - split; [done|]. intros H. destruct H. by apply Hiff.
  - split.
    + intros H. apply Hiff in H. discriminate H.
    + intros _. split_and!; [done|done|].
      change (prop (ThrownError err) "error_description") with JUndefined.
      change (prop (ThrownError err) "message") with (JStr (message err)).
      cbn [Expiry.error Expiry.ui Expiry.setStep Expiry.setError
           Expiry.with_ui Expiry.qwenOAuthToken or_else truthy].
      unfold or_else, truthy.
      by destruct (String.eqb (message err) "").
Qed.

End UrlsAndMessages.

(** ** The further properties at concrete inputs *)

Section FurtherInstances.
Import Js DialogTypes Scenarios Examples.

Lemma pkce_lengths_witness :
  String.length (QwenOAuthHandlers.generateCodeVerifier bytes32) = 43%nat
  ∧ String.length
      (QwenOAuthHandlers.generateCodeChallenge digest32
         (QwenOAuthHandlers.generateCodeVerifier bytes32)) = 43%nat.
Proof.
  apply (pkce_strings_have_43_characters digest32 bytes32); reflexivity.
Defined.

Lemma verifier_injective_witness : random_bytes = random_bytes.
Proof.
  apply (generateCodeVerifier_injective random_bytes random_bytes).
  reflexivity.
Defined.

Lemma device_code_failure_witness :
  (∃ result,
     QwenOAuthHandlers.device_code_handler digest random_bytes pending_fetch
     = Return result)
  ∨ ∃ cause,
      QwenOAuthHandlers.device_code_handler digest random_bytes pending_fetch
      = Throw (new_Error ("Failed to get Qwen device code: " ++ cause))
      ∧ ((∃ e, pending_fetch
                 (QwenOAuthHandlers.device_code_request
                    (QwenOAuthHandlers.generateCodeChallenge digest
                       (QwenOAuthHandlers.generateCodeVerifier random_bytes)))
               = QwenOAuthHandlers.FetchFailed e ∧ cause = message e)
         ∨ (∃ response,
              pending_fetch
                (QwenOAuthHandlers.device_code_request
                   (QwenOAuthHandlers.generateCodeChallenge digest
                      (QwenOAuthHandlers.generateCodeVerifier random_bytes)))
              = QwenOAuthHandlers.Fetched response
              ∧ ¬ (200 ≤ QwenOAuthHandlers.status response ≤ 299)%Z
              ∧ cause = "Device code request failed: "
                        ++ pretty (QwenOAuthHandlers.status response) ++ " "
                        ++ QwenOAuthHandlers.statusText response)
         ∨ (∃ response e,
              pending_fetch
                (QwenOAuthHandlers.device_code_request
                   (QwenOAuthHandlers.generateCodeChallenge digest
                      (QwenOAuthHandlers.generateCodeVerifier random_bytes)))
              = QwenOAuthHandlers.Fetched response
              ∧ (200 ≤ QwenOAuthHandlers.status response ≤ 299)%Z
              ∧ QwenOAuthHandlers.json response = inl e
              ∧ cause = message e)).
Proof.
  exact (device_code_handler_failures digest random_bytes pending_fetch).
Defined.

Lemma token_return_witness :
  QwenOAuthHandlers.token_handler (params_of args) device_fetch
  = Return device_answer.
Proof.
  destruct (token_handler_returns_ok_body (params_of args) device_fetch)
    as [H _].
  apply H. eexists. split; [reflexivity|]. split; [|reflexivity].
  vm_compute. split; discriminate.
Defined.

Lemma slow_down_total_witness :
  pa_interval (Expiry.poll slowed_timer)
  = pa_interval (Expiry.poll polling_timer)
    + 5 * Z.of_nat
            (length
               (List.filter
                  (λ t, answers_b "slow_down" (Expiry.response t))
                  slow_ticks)).
Proof.
  destruct slow_down_answers_add_five_seconds_each as [HE _].
  apply (HE slow_ticks polling_world polling_timer slowed_timer).
  - reflexivity.
  - by vm_compute.
Defined.

Lemma request_count_witness :
  Expiry.token_requests (Expiry.run five_pending polling_world)
  = (replicate (length five_pending) (params_of (Expiry.poll polling_timer))
     ++ Expiry.token_requests polling_world)%list.
Proof.
  destruct one_token_request_per_wake_up as [HE _].
  apply (HE five_pending polling_world polling_timer).
  - reflexivity.
  - vm_compute. discriminate.
Defined.

Lemma late_wake_up_witness :
  Expiry.timers (Expiry.run (five_pending ++ [ late_tick ]) polling_world)
  = [].
Proof.
  apply (no_poll_pending_after_late_wake_up _ polling_world polling_timer
           late_tick).
  - reflexivity.
  - apply list_elem_of_In. vm_compute. tauto.
  - vm_compute. reflexivity.
Defined.

Lemma starting_render_witness :
  Forall (λ tm, Expiry.closure tm = Expiry.ui Expiry.initial_world)
    (Expiry.timers
       (Expiry.run []
          (Expiry.startOAuthFlow (Return first_result) 1000 (Return ()) 1000
             Expiry.initial_world))).
Proof.
  apply (flow_polls_read_the_starting_render (Return first_result) 1000
           (Return ()) 1000 [] Expiry.initial_world).
  reflexivity.
Defined.

Lemma pending_keeps_polling_witness :
  Plain.ui (Plain.run plain_five_pending plain_polling_world)
  = Plain.ui plain_polling_world.
Proof.
  destruct pending_answers_keep_polling as [HP _].
  apply (HP plain_five_pending plain_polling_world plain_timer).
  - reflexivity.
  - repeat constructor.
Defined.

Lemma close_then_token_witness :
  Expiry.step
    (Expiry.ui
       (Expiry.fire (tick_at 4000 (Return token))
          (Expiry.handleClose polling_world)))
  = step_success.
Proof.
  destruct closing_the_dialog_does_not_stop_polling as [HE _].
  apply (HE polling_world polling_timer (tick_at 4000 (Return token)) token).
  - reflexivity.
  - vm_compute. discriminate.
  - reflexivity.
Defined.

Lemma failed_start_witness :
  Expiry.timers
    (Expiry.startOAuthFlow (Throw server_down) 1000 (Return ()) 1000
       polling_world)
  = Expiry.timers polling_world.
Proof.
  destruct failed_start_never_polls as [HE _].
  destruct (HE (Throw server_down) 1000 (Return ()) 1000 polling_world)
    as (_ & H & _).
  apply (H server_down). by left.
Defined.

(** A flow started in a dialog whose state holds the expiry 601000: after
    two "slow down" answers and a "still pending" one its poll is pending
    with a delay of 15000 ms. *)
Lemma delays_witness :
  Expiry.timers
    (Expiry.run slow_ticks
       (Expiry.startOAuthFlow (Return first_result) 1000 (Return ()) 1000
          idle_world))
  = [ idle_world_slowed_timer ]
  ∧ Forall (λ tm, 1000 ≤ Expiry.delay tm)%Z
      (Expiry.timers
         (Expiry.run slow_ticks
            (Expiry.startOAuthFlow (Return first_result) 1000 (Return ())
               1000 idle_world))).
Proof.
  split; [by vm_compute|].
  destruct flow_waits_at_least_a_second as [HE _].
  apply (HE first_result 1000 (Return ()) 1000 slow_ticks idle_world).
  - intros n [= <-]. lia.
  - reflexivity.
Defined.

Lemma failure_message_witness :
  truthy
    (Expiry.error
       (Expiry.ui
          (Expiry.pollForToken polling_ui args 4000 (Throw server_down) 4100
             polling_world)))
  = true.
Proof.
  destruct poll_failure_always_has_a_message as [HE _].
  apply (HE polling_ui args 4000 (Throw server_down) 4100 polling_world).
  - discriminate.
  - by vm_compute.
Defined.

Lemma status_witness :
  QwenAuthHooks.isExpired
    (QwenAuthHooks.useQwenProviderStatus (Some stored) 300000000) = true.
Proof.
  destruct (provider_status_is_consistent (Some stored) 300000000)
    as (_ & _ & _ & H).
  apply H; [reflexivity|]. vm_compute. discriminate.
Defined.

Lemma days_witness :
  (1 ≤ 2)%Z
  ∧ ((2 - 1) * QwenAuthHooks.MS_PER_DAY
     < QwenAuthHooks.expiry_of (Some stored) - 100000000
     ≤ 2 * QwenAuthHooks.MS_PER_DAY)%Z.
Proof.
  apply (expires_in_days_rounds_up (Some stored) 100000000 2).
  reflexivity.
Defined.

Lemma stored_credential_witness :
  QwenAuthHooks.useIsQwenAuthenticated
    (Some {| QwenAuthHooks.qwenAccessToken := JStr "at-1";
             QwenAuthHooks.qwenTokenExpiry := Some (4100 + 3600 * 1000) |})
    5000
  = true.
Proof.
  apply (stored_credential_authenticates_until_expiry args token 4100
           plain_polling_world
           {| Plain.qwenAccessToken := "at-1"; Plain.qwenRefreshToken := "";
              Plain.qwenTokenExpiry := 4100 + 3600 * 1000;
              Plain.qwenResourceUrl := DASHSCOPE_URL |}
           {| QwenAuthHooks.qwenAccessToken := JStr "at-1";
              QwenAuthHooks.qwenTokenExpiry := Some (4100 + 3600 * 1000) |}
           5000).
  - reflexivity.
  - reflexivity.
  - reflexivity.
  - split_and!; [discriminate|discriminate|reflexivity].
Defined.

Lemma non_http_url_witness :
  fst (ShellHandlers.open_external_url "file:///etc/passwd" (Return ())) = []
  ∧ ∃ msg,
      snd (ShellHandlers.open_external_url "file:///etc/passwd" (Return ()))
      = Throw (new_Error msg).
Proof.
  apply (open_external_url_opens_only_http "file:///etc/passwd" (Return ())).
  reflexivity.
Defined.

Lemma verification_url_witness :
  ShellHandlers.open_external_url verification_url (Return ())
  = ([ ShellHandlers.LoadInPopup ShellHandlers.oauth_window_options
         verification_url ], Return ()).
Proof.
  destruct (oauth_urls_open_in_the_popup verification_url (Return ()))
    as (_ & _ & _ & _ & H).
  - reflexivity.
  - apply (H "/device?user_code=AAAA-1111"). reflexivity.
Defined.

Lemma retried_by_text_witness :
  Expiry.step
    (Expiry.ui
       (Expiry.pollForToken polling_ui args 4000 (Throw server_down) 4100
          polling_world))
  = step_error.
Proof.
  destruct (error_instance_is_retried_by_its_text polling_ui args 4000
              {| message := "Service unavailable"; code := None |} 4100
              polling_world) as [_ H].
  - vm_compute. discriminate.
  - apply H. rewrite <- !includes_spec. intros [H1|[H1|H1]]; discriminate H1.
Defined.

Lemma first_flow_witness :
  Expiry.token_requests
    (Expiry.run [ tick_at 4000 (Throw pending) ]
       (Expiry.startOAuthFlow (Return first_result) 1000 (Return ()) 1000
          Expiry.initial_world))
  = [].
Proof.
  apply (first_flow_times_out first_result 1000 1000
           (tick_at 4000 (Throw pending))).
  reflexivity.
Defined.

End FurtherInstances.
